(** * PricePinion back end: the Fred Meyer scraper and its collaborators

    A shallow embedding of [src/WebScraping/GroceryStores/FredMeyerScraper.ts]
    (class [FredMeyerScraper]: [scrapeSite], [scrapePage], [fredMeyerScraper])
    together with the collaborators it calls.

    Conventions of the embedding.
    - A JavaScript value that the scraper handles is either [undefined] or a
      string ([JsVal]); strings are sequences of one-byte characters.
    - An awaited promise either fulfils or rejects ([Outcome]); every awaited
      browser call is taken to settle.
    - The browser is an oracle: a URL determines a [Site], whose answers
      depend on how many times the "load more" control has been clicked on
      the page of the current call.  Each call of [scrapeSite] owns its page.
    - What a call does to the browser is recorded as a list of [Event]s.
    - The [while] loop of [scrapeSite] runs on fuel; running out of fuel is
      kept apart from fulfilment and rejection ([OutOfFuel]). *)

From Stdlib Require Import ZArith Ascii String List Bool Lia.
From Stdlib Require Import Decimal DecimalString DecimalPos DecimalZ.
From stdpp Require Import base option list gmap strings.
Import ListNotations.

Local Open Scope string_scope.
Local Open Scope Z_scope.

(** ** JavaScript values *)

Module Js.

Inductive JsVal : Type :=
| JUndefined
| JStr (s : string).

#[global] Instance JsVal_eq_dec : EqDecision JsVal.
Proof. solve_decision. Defined.

(** ECMAScript [ToString] on the values above. *)
Definition ToString (v : JsVal) : string :=
  match v with
  | JUndefined => "undefined"
  | JStr s => s
  end.

(** The [+] of a string literal and a value: string concatenation after
    [ToString]. *)
Definition strPlus (s : string) (v : JsVal) : JsVal :=
  JStr (s ++ ToString v).

(** [v] is defined and is not the empty string. *)
Definition definedNonEmpty (v : JsVal) : bool :=
  match v with
  | JUndefined => false
  | JStr s => negb (String.eqb s "")
  end.

End Js.
Import Js.

(** ** Regular expressions

    A matcher by derivatives for the fragment the scraper's pattern needs.
    [regexTest r s] is [r.test(s)] for a pattern anchored at both ends
    ([^...$], no flags). *)

Module Regex.

Inductive regex : Type :=
| Nothing
| Epsilon
| Class (p : ascii -> bool)
| Seq (r1 r2 : regex)
| Alt (r1 r2 : regex)
| Star (r : regex).

Definition Lit (c : ascii) : regex := Class (Ascii.eqb c).
Definition Plus (r : regex) : regex := Seq r (Star r).

Fixpoint nullable (r : regex) : bool :=
  match r with
  | Nothing => false
  | Epsilon => true
  | Class _ => false
  | Seq r1 r2 => nullable r1 && nullable r2
  | Alt r1 r2 => nullable r1 || nullable r2
  | Star _ => true
  end.

Fixpoint deriv (c : ascii) (r : regex) : regex :=
  match r with
  | Nothing => Nothing
  | Epsilon => Nothing
  | Class p => if p c then Epsilon else Nothing
  | Seq r1 r2 =>
      if nullable r1
      then Alt (Seq (deriv c r1) r2) (deriv c r2)
      else Seq (deriv c r1) r2
  | Alt r1 r2 => Alt (deriv c r1) (deriv c r2)
  | Star r1 => Seq (deriv c r1) (Star r1)
  end.

Fixpoint regexTest (r : regex) (s : string) : bool :=
  match s with
  | EmptyString => nullable r
  | String c s' => regexTest (deriv c r) s'
  end.

(** [\d] without the unicode flag: the ten ASCII digits. *)
Definition isDigit (c : ascii) : bool :=
  let n := N_of_ascii c in (48 <=? n)%N && (n <=? 57)%N.

(** The strings a pattern denotes, against which the matcher is checked. *)
Inductive Matches : regex -> string -> Prop :=
| MEpsilon : Matches Epsilon ""
| MClass p c : p c = true -> Matches (Class p) (String c "")
| MSeq r1 r2 s1 s2 :
    Matches r1 s1 -> Matches r2 s2 -> Matches (Seq r1 r2) (s1 ++ s2)
| MAltL r1 r2 s : Matches r1 s -> Matches (Alt r1 r2) s
| MAltR r1 r2 s : Matches r2 s -> Matches (Alt r1 r2) s
| MStarNil r : Matches (Star r) ""
| MStarMore r c s1 s2 :
    Matches r (String c s1) -> Matches (Star r) s2 ->
    Matches (Star r) (String c s1 ++ s2).

Fixpoint stringForall (p : ascii -> bool) (s : string) : bool :=
  match s with
  | EmptyString => true
  | String c s' => p c && stringForall p s'
  end.

(** [[\d.]] *)
Definition isDigitOrDot (c : ascii) : bool := isDigit c || Ascii.eqb c ".".

End Regex.
Import Regex.

(** ** Product records (interface [IProductInfo]) *)

Record IProductInfo : Type := mkProductInfo {
  productName : JsVal;
  storeName : JsVal;
  productPrice : JsVal;
  productLink : JsVal;
  productImage : JsVal
}.

#[global] Instance IProductInfo_eq_dec : EqDecision IProductInfo.
Proof. solve_decision. Defined.

(** ** Extractors (class [Extractors], imported from [@scraper-extractors])

    The class is not among the sources; its methods are taken as an
    interface.  Each reads one property of the first descendant of an element
    that matches a selector, and gives [undefined], not an exception, when
    the selector matches nothing. *)

Class Extractors (Element : Type) : Type := {
  extractFromAria : Element -> string -> JsVal;
  extractProductImage : Element -> string -> JsVal;
  extractTextContent : Element -> string -> JsVal;
  extractFromValue : Element -> string -> JsVal;
  extractProductURL : string -> Element -> string -> JsVal
}.

(** ** [scrapePage] *)

Section ScrapePage.

Context {Element : Type} `{extractorObj : Extractors Element}.

(** [const pricePerPoundRegex = /^\$[\d.]+\/lb$/;] *)
Definition pricePerPoundRegex : regex :=
  Seq (Lit "$")
    (Seq (Plus (Class isDigitOrDot))
       (Seq (Lit "/") (Seq (Lit "l") (Lit "b")))).

(** Price of one product cell: the text of the per-pound span when it
    matches the pattern, otherwise ["$"] followed by the value of the
    default price tag. *)
Definition extractPrice (product : Element) : JsVal :=
  let productPrice := extractTextContent product "div > * >.kds-Text--s" in
  if negb (regexTest pricePerPoundRegex (ToString productPrice))
  then
    let priceValue := extractFromValue product ".kds-Price--alternate" in
    strPlus "$" priceValue
  else productPrice.

(** Body of the [for ... of productsGrid] loop: the record pushed for one
    cell. *)
Definition scrapeProduct (product : Element) : IProductInfo :=
  let productName := extractFromAria product ".mb-4 > .kds-Link" in
  let productImage :=
    extractProductImage product ".kds-Link > .h-full > .kds-Image-img" in
  let productPrice := extractPrice product in
  let productURL :=
    extractProductURL "https://www.fredmeyer.com" product ".mb-4 > .kds-Link" in
  {| productName := productName;
     storeName := JStr "Fred Meyer";
     productPrice := productPrice;
     productLink := productURL;
     productImage := productImage |}.

(** The loop over the cells matched by [".AutoGrid-cell > *"], pushing to
    [productData]. *)
Fixpoint scrapeCells (productsGrid : list Element)
    (productData : list IProductInfo) : list IProductInfo :=
  match productsGrid with
  | [] => productData
  | product :: rest =>
      scrapeCells rest (productData ++ [scrapeProduct product])%list
  end.

Definition scrapePageCells (productsGrid : list Element) : list IProductInfo :=
  scrapeCells productsGrid [].

End ScrapePage.

(** ** The per-unit price pattern as the specification words it

    A second description of the pattern, written without the matcher: a
    dollar sign, one or more characters each of which is a decimal digit or
    a dot, then [/lb], and nothing before or after. *)

Definition priceCharacters : list ascii := list_ascii_of_string "0123456789.".

Definition PerUnitPriceText (s : string) : Prop :=
  exists amount,
    amount <> "" /\
    (forall c, In c (list_ascii_of_string amount) -> In c priceCharacters) /\
    s = "$" ++ amount ++ "/lb".

(** ** Numbers read from the environment: [parseInt(...) || default] *)

Module Env.

(** A JavaScript number as far as the delays need it: [NaN] or an integer.
    ([parseInt] yields the nearest double; the two agree on integers of
    magnitude at most 2^53, and [-0] is identified with [0], which is
    falsy as well.) *)
Inductive JsNum : Type :=
| NaN
| Num (z : Z).

(** [StrWhiteSpaceChar], on one-byte characters: TAB, LF, VT, FF, CR, SP. *)
Definition isWhiteSpace (c : ascii) : bool :=
  let n := N_of_ascii c in
  ((9 <=? n)%N && (n <=? 13)%N) || (n =? 32)%N.

Fixpoint trimStart (s : string) : string :=
  match s with
  | String c s' => if isWhiteSpace c then trimStart s' else s
  | EmptyString => s
  end.

(** Value of [c] as a digit in radix [R], if it is one. *)
Definition digitValue (R : Z) (c : ascii) : option Z :=
  let n := Z.of_N (N_of_ascii c) in
  let v :=
    if (48 <=? n) && (n <=? 57) then Some (n - 48)
    else if (97 <=? n) && (n <=? 122) then Some (n - 97 + 10)
    else if (65 <=? n) && (n <=? 90) then Some (n - 65 + 10)
    else None in
  match v with
  | Some d => if d <? R then Some d else None
  | None => None
  end.

(** The longest prefix of radix-[R] digits, read as a number; [acc] is the
    value of the digits consumed so far, [None] before the first one. *)
Fixpoint parseDigits (R : Z) (s : string) (acc : option Z) : option Z :=
  match s with
  | EmptyString => acc
  | String c s' =>
      match digitValue R c with
      | Some d =>
          parseDigits R s'
            (Some (match acc with Some a => a * R + d | None => d end))
      | None => acc
      end
  end.

(** [parseInt(string)] with the radix argument left out, for a string of
    ASCII characters and a result that a JavaScript number holds exactly
    (see [asciiOnly] and [safeInteger]): beyond that, [parseInt] also skips
    blanks outside ASCII and rounds to the nearest double. *)
Definition parseIntString (inputString : string) : JsNum :=
  let S0 := trimStart inputString in
  let '(sign, S1) :=
    match S0 with
    | String "-" rest => (-1, rest)
    | String "+" rest => (1, rest)
    | _ => (1, S0)
    end in
  let '(R, S2) :=
    match S1 with
    | String "0" (String "x" rest) => (16, rest)
    | String "0" (String "X" rest) => (16, rest)
    | _ => (10, S1)
    end in
  match parseDigits R S2 None with
  | None => NaN
  | Some mathInt => Num (sign * mathInt)
  end.

Definition parseInt (v : JsVal) : JsNum := parseIntString (ToString v).

(** [n || d] for a number [n]: [NaN] and zero are falsy. *)
Definition orDefault (n : JsNum) (d : Z) : Z :=
  match n with
  | NaN => d
  | Num z => if z =? 0 then d else z
  end.

(** [process.env]: a variable is a string when set, [undefined] when not. *)
Definition processEnv (env : gmap string string) (name : string) : JsVal :=
  match env !! name with
  | Some s => JStr s
  | None => JUndefined
  end.

(** [parseInt(<string>process.env.CLICK_DELAY) || 500] *)
Definition clickDelay (env : gmap string string) : Z :=
  orDefault (parseInt (processEnv env "CLICK_DELAY")) 500.

(** [parseInt(<string>process.env.SCRAPE_DELAY) || 3000] *)
Definition scrapeDelay (env : gmap string string) : Z :=
  orDefault (parseInt (processEnv env "SCRAPE_DELAY")) 3000.

(** The decimal numeral of an integer, as one writes it in the
    environment: ["250"], ["-5"], ["0"]. *)
Definition decimalString (z : Z) : string :=
  NilZero.string_of_int (Z.to_int z).

(** The integers that a JavaScript number represents exactly. *)
Definition safeInteger (z : Z) : Prop := Z.abs z <= 2 ^ 53.

(** The strings of ASCII characters.  On these, the blanks that [parseInt]
    skips are the six of [isWhiteSpace]; a string with other characters may
    begin with blanks that [trimStart] does not know. *)
Definition asciiOnly (s : string) : bool :=
  stringForall (fun c => (N_of_ascii c <? 128)%N) s.

(** [tail] is empty or begins with a character that is no decimal digit. *)
Definition stopsDigits (tail : string) : Prop :=
  match tail with
  | EmptyString => True
  | String c _ => digitValue 10 c = None
  end.

End Env.
Import Env.

(** ** Promises, browser events and the page monad *)

Inductive Error : Type :=
| NavigationError
| TimeoutError
| NoElementError
| ClickError.

(** A settled promise of the browser API. *)
Inductive Outcome (A : Type) : Type :=
| Fulfilled (a : A)
| Threw (e : Error).
Arguments Fulfilled {A} a.
Arguments Threw {A} e.

Inductive Event : Type :=
| ENewPage
| EGoto (url : string)
| EWaitForSelector (selector : string)
| ESleep (ms : Z)
| EEval (selector : string)
| EClick (selector : string)
| EQueryAll (selector : string).

#[global] Instance Event_eq_dec : EqDecision Event.
Proof. solve_decision. Defined.

(** What an [async] computation has come to. *)
Inductive Result (A : Type) : Type :=
| Resolved (a : A)
| Rejected (e : Error)
| OutOfFuel.
Arguments Resolved {A} a.
Arguments Rejected {A} e.
Arguments OutOfFuel {A}.

(** State of the page of one [scrapeSite] call. *)
Record PageState : Type := mkPageState {
  clicks : nat;
  trace : list Event
}.

Definition M (A : Type) : Type := PageState -> Result A * PageState.

Definition ret {A} (a : A) : M A := fun s => (Resolved a, s).

Definition bind {A B} (m : M A) (f : A -> M B) : M B :=
  fun s =>
    match m s with
    | (Resolved a, s') => f a s'
    | (Rejected e, s') => (Rejected e, s')
    | (OutOfFuel, s') => (OutOfFuel, s')
    end.

Notation "'let*' x ':=' m 'in' k" := (bind m (fun x => k))
  (at level 10, x name, m at level 100, k at level 200).
Notation "m ';;' k" := (bind m (fun _ => k))
  (at level 100, k at level 200, right associativity).

Definition emit (ev : Event) : M unit :=
  fun s => (Resolved tt, {| clicks := clicks s; trace := trace s ++ [ev] |}).

Definition await {A} (o : Outcome A) : M A :=
  fun s => (match o with Fulfilled a => Resolved a | Threw e => Rejected e end, s).

Definition outOfFuel {A} : M A := fun s => (OutOfFuel, s).

(** [try { m } catch (error) { h error }]: only a rejection is caught. *)
Definition tryCatch {A} (m : M A) (h : Error -> M A) : M A :=
  fun s =>
    match m s with
    | (Rejected e, s') => h e s'
    | r => r
    end.

(** ** The browser (Puppeteer's [Browser], [Page], [ElementHandle])

    The answers of one site.  [navigation] is what [page.goto] settles to,
    [autoGrid] what [page.waitForSelector(".AutoGrid")] settles to (the
    promise has type [ElementHandle | null]).  [loadMoreProbe n] and
    [loadMoreClick n] are what [page.$eval] and [page.click] on the scoped
    "load more" selector settle to once the control has been clicked [n]
    times.  A grid handle shows the cells present after [n] clicks. *)

Record ElementHandle (Element : Type) : Type := mkGrid {
  gridCells : nat -> list Element
}.
Arguments mkGrid {Element} gridCells.
Arguments gridCells {Element} _ _.

Record Site (Element : Type) : Type := mkSite {
  navigation : Outcome unit;
  autoGrid : Outcome (option (ElementHandle Element));
  loadMoreProbe : nat -> Outcome unit;
  loadMoreClick : nat -> Outcome unit
}.
Arguments mkSite {Element} navigation autoGrid loadMoreProbe loadMoreClick.
Arguments navigation {Element} _.
Arguments autoGrid {Element} _.
Arguments loadMoreProbe {Element} _ _.
Arguments loadMoreClick {Element} _ _.

(** The browser serves a site at every URL. *)
Definition Browser (Element : Type) : Type := string -> Site Element.

(** Puppeteer's contract for [waitForSelector] with its default options: the
    promise fulfils with the handle once the element is attached, and rejects
    with a [TimeoutError] when the element has not appeared within the wait
    window.  (It fulfils with [null] only when waiting for an element to
    become hidden, which [scrapeSite] does not do.)  [appearsAt] is the time
    in ms at which the element is attached, if ever. *)
Definition puppeteerWaitForSelector {Element : Type}
    (timeout : Z) (appearsAt : option Z) (handle : ElementHandle Element)
    : Outcome (option (ElementHandle Element)) :=
  match appearsAt with
  | Some t => if t <=? timeout then Fulfilled (Some handle) else Threw TimeoutError
  | None => Threw TimeoutError
  end.

(** Puppeteer's default wait window, in ms. *)
Definition defaultTimeout : Z := 30000.

Section FredMeyerScraper.

Context {Element : Type} `{extractorObj : Extractors Element}.

(** [process.env] *)
Variable env : gmap string string.

(** *** Page operations

    [browser.newPage()] and the query of the cells are taken to fulfil; the
    other operations settle as the site says. *)

Definition newPage (browser : Browser Element) : M unit := emit ENewPage.

Definition goto (site : Site Element) (url : string) : M unit :=
  emit (EGoto url) ;; await (navigation site).

Definition waitForSelector (site : Site Element) (selector : string)
    : M (option (ElementHandle Element)) :=
  emit (EWaitForSelector selector) ;; await (autoGrid site).

Definition evalSelector (site : Site Element) (selector : string) : M unit :=
  emit (EEval selector) ;;
  fun s => await (loadMoreProbe site (clicks s)) s.

Definition click (site : Site Element) (selector : string) : M unit :=
  emit (EClick selector) ;;
  fun s =>
    match loadMoreClick site (clicks s) with
    | Fulfilled _ => (Resolved tt, {| clicks := S (clicks s); trace := trace s |})
    | Threw e => (Rejected e, s)
    end.

Definition queryAll (handle : ElementHandle Element) (selector : string)
    : M (list Element) :=
  emit (EQueryAll selector) ;;
  fun s => (Resolved (gridCells handle (clicks s)), s).

(** Modelled from the spec: [ScraperUtils.sleepBeforeOperation], a delay
    primitive that resolves after [ms] milliseconds. *)
Definition sleepBeforeOperation (ms : Z) : M unit := emit (ESleep ms).

(** *** [scrapePage] *)

Definition scrapePage (productGridContainer : ElementHandle Element)
    : M (list IProductInfo) :=
  let* productsGrid := queryAll productGridContainer ".AutoGrid-cell > *" in
  ret (scrapePageCells productsGrid).

(** *** [scrapeSite] *)

Definition loadMoreSelector : string := ".mt-32 > .LoadMore__load-more-button".

(** The [try] block of one turn of the loop. *)
Definition loadMoreStep (site : Site Element) : M unit :=
  sleepBeforeOperation (clickDelay env) ;;
  evalSelector site loadMoreSelector ;;
  click site loadMoreSelector.

(** [while (loadMoreResultsExists) { try { ... } catch (error)
    { loadMoreResultsExists = false; } }] *)
Fixpoint loadMoreLoop (fuel : nat) (site : Site Element)
    (loadMoreResultsExists : bool) : M unit :=
  if loadMoreResultsExists then
    match fuel with
    | O => outOfFuel
    | S fuel' =>
        let* stillExists :=
          tryCatch (loadMoreStep site ;; ret true) (fun _ => ret false) in
        loadMoreLoop fuel' site stillExists
    end
  else ret tt.

Definition scrapeSite (fuel : nat) (url : string) (browser : Browser Element)
    (scrapeRecursively : bool) : M (option (list IProductInfo)) :=
  newPage browser ;;
  let site := browser url in
  goto site url ;;
  let* productGridContainer := waitForSelector site ".AutoGrid" in
  match productGridContainer with
  | None => ret None
  | Some productGridContainer =>
      if scrapeRecursively then
        loadMoreLoop fuel site true ;;
        sleepBeforeOperation (scrapeDelay env) ;;
        let* scrapedProducts := scrapePage productGridContainer in
        ret (Some scrapedProducts)
      else
        let* pageData := scrapePage productGridContainer in
        ret (Some pageData)
  end.

(** A call starts on a fresh page: nothing clicked, nothing recorded. *)
Definition freshPage : PageState := {| clicks := 0; trace := [] |}.

Definition runScrapeSite (fuel : nat) (url : string) (browser : Browser Element)
    (scrapeRecursively : bool) : Result (option (list IProductInfo)) * PageState :=
  scrapeSite fuel url browser scrapeRecursively freshPage.

End FredMeyerScraper.

(** ** The scrape coordinator ([ScraperUtils.scrapeMultipleURLs]) *)

(** A scrape batch: category key to product sequence, or to [null]
    ([None]).  An absent key is a key the batch does not have. *)
Abbreviation ScrapeBatch := (gmap string (option (list IProductInfo))).

(** A batch together with what each category's page was asked to do.  The
    categories run on pages of their own, so their events are kept per
    category and are not ordered against each other. *)
Record ScrapeRun : Type := mkScrapeRun {
  batch : ScrapeBatch;
  pageEvents : gmap string (list Event)
}.

Section Coordinator.

Context {Element : Type}.

(** The scrape function handed to the coordinator, called as
    [scrapeFn(url, browser, recursive)]. *)
Definition ScrapeFn : Type :=
  string -> Browser Element -> bool ->
  Result (option (list IProductInfo)) * PageState.

(** Modelled from the spec: the entry that the absent
    [ScraperUtils.scrapeMultipleURLs] records for a settled category: the
    product sequence when the scrape fulfilled with one, [null] when it
    fulfilled with [null] or rejected. *)
Definition categoryResult (r : Result (option (list IProductInfo)))
    : option (list IProductInfo) :=
  match r with
  | Resolved (Some products) => Some products
  | Resolved None => None
  | Rejected _ => None
  | OutOfFuel => None
  end.

(** A settled scrape that did not yield a product sequence: it fulfilled
    with [null] (page-miss) or rejected (thrown error, timeout). *)
Definition failed (r : Result (option (list IProductInfo))) : bool :=
  match r with
  | Resolved None => true
  | Rejected _ => true
  | Resolved (Some _) => false
  | OutOfFuel => false
  end.

Definition settled {A} (r : Result A) : bool :=
  match r with
  | OutOfFuel => false
  | _ => true
  end.

(** Modelled from the spec: [ScraperUtils.scrapeMultipleURLs] (the class
    [ScraperUtils] is not among the sources).  One shared browser; each
    category URL is handed to [scrapeFn]; the settled results are collected
    under the caller's keys, a failed category as [null].  The batch is
    returned once every category has settled. *)
Definition scrapeMultipleURLs (browser : Browser Element)
    (urls : gmap string string) (recursive : bool) (scrapeFn : ScrapeFn)
    : option ScrapeRun :=
  let tasks := (fun url => scrapeFn url browser recursive) <$> urls in
  if decide (map_Forall (fun _ task => settled (fst task) = true) tasks)
  then Some {| batch := (fun task => categoryResult (fst task)) <$> tasks;
               pageEvents := (fun task => trace (snd task)) <$> tasks |}
  else None.

End Coordinator.

Section FredMeyerJob.

Context {Element : Type} `{extractorObj : Extractors Element}.

(** [const urls = { meat: ..., produce: ..., milk: ..., cheese: ...,
    butter: ..., eggs: ... }] *)
Definition urls : gmap string string :=
  <["meat" := "https://www.fredmeyer.com/pl/meat-seafood/18004"]>
  (<["produce" :=
      "https://www.fredmeyer.com/pl/fresh-fruits-vegetables/06?taxonomyId=06&fulfillment=all"]>
  (<["milk" := "https://www.fredmeyer.com/pl/milk-plant-based-%20milk/02001"]>
  (<["cheese" := "https://www.fredmeyer.com/pl/cheese/02002"]>
  (<["butter" := "https://www.fredmeyer.com/pl/butter-margarine/02004"]>
  (<["eggs" := "https://www.fredmeyer.com/pl/eggs-egg-substitutes/02003"]>
   ∅))))).

(** [fredMeyerScraper]: [scrapeMultipleURLs(urls, false,
    this.scrapeSite.bind(this))]. *)
Definition fredMeyerScraper (env : gmap string string) (fuel : nat)
    (browser : Browser Element) : option ScrapeRun :=
  scrapeMultipleURLs browser urls false (runScrapeSite env fuel).

End FredMeyerJob.

(** ** The catalog reconciler ([ProductProcessor.processScrapeResults]) *)

Module Reconciler.

(** Modelled from the spec: the catalog entry of the catalog collaborator
    (absent from the sources): the product fields and a durable identifier.  (The
    last-seen timestamp of an entry belongs to the catalog collaborator
    and is left out.) *)
Record CatalogEntry : Type := mkEntry {
  entryId : nat;
  entryProduct : IProductInfo
}.

(** Modelled from the spec: a mutation call (insert or update) sent to the
    catalog collaborator. *)
Inductive CatalogWrite : Type :=
| Insert (r : IProductInfo)
| Update (id : nat) (r : IProductInfo).

(** Catalog, the writes issued so far and the log of rejected candidates. *)
Record State : Type := mkState {
  catalog : list CatalogEntry;
  writes : list CatalogWrite;
  rejected : list IProductInfo
}.

(** Modelled from the spec: the identity key [(storeName, productName)] of
    the absent [ProductProcessor]. *)
Definition identityKey (r : IProductInfo) : JsVal * JsVal :=
  (storeName r, productName r).

(** Modelled from the spec: the validation gate of the absent
    [ProductProcessor]: all five fields defined and non-empty. *)
Definition validate (r : IProductInfo) : bool :=
  definedNonEmpty (productName r) && definedNonEmpty (storeName r) &&
  definedNonEmpty (productPrice r) && definedNonEmpty (productLink r) &&
  definedNonEmpty (productImage r).

Definition hasKey (key : JsVal * JsVal) (e : CatalogEntry) : bool :=
  bool_decide (identityKey (entryProduct e) = key).

(** Modelled from the spec: the lookup of the existing catalog entry by
    identity key. *)
Definition findEntry (key : JsVal * JsVal) (c : list CatalogEntry)
    : option CatalogEntry :=
  List.find (hasKey key) c.

(** Modelled from the spec: what an update writes, the mutable fields
    price, link and image. *)
Definition updateFields (old r : IProductInfo) : IProductInfo :=
  {| productName := productName old;
     storeName := storeName old;
     productPrice := productPrice r;
     productLink := productLink r;
     productImage := productImage r |}.

(** Modelled from the spec: the update in place of the entry that the
    lookup finds. *)
Fixpoint updateEntry (r : IProductInfo) (c : list CatalogEntry)
    : list CatalogEntry :=
  match c with
  | [] => []
  | e :: c' =>
      if hasKey (identityKey r) e
      then {| entryId := entryId e;
              entryProduct := updateFields (entryProduct e) r |} :: c'
      else e :: updateEntry r c'
  end.

(** Modelled from the spec: the durable identifier that the catalog
    collaborator gives to a new entry, here one more than the largest in
    use. *)
Definition nextId (c : list CatalogEntry) : nat :=
  S (foldr Nat.max 0%nat (map entryId c)).

(** Modelled from the spec: the insertion of a new entry. *)
Definition insertEntry (r : IProductInfo) (c : list CatalogEntry)
    : list CatalogEntry :=
  c ++ [{| entryId := nextId c; entryProduct := r |}].

(** Modelled from the spec: the treatment of one candidate by
    [ProductProcessor.processScrapeResults] (the class [ProductProcessor]
    is not among the sources).  The gate comes first; a candidate that
    passes is looked up by identity key, inserted when absent, updated in
    place when found with a different price, link or image, and left alone
    when found with all fields identical. *)
Definition reconcile (st : State) (r : IProductInfo) : State :=
  if validate r then
    match findEntry (identityKey r) (catalog st) with
    | Some e =>
        if bool_decide (entryProduct e = r) then st
        else {| catalog := updateEntry r (catalog st);
                writes := writes st ++ [Update (entryId e) r];
                rejected := rejected st |}
    | None =>
        {| catalog := insertEntry r (catalog st);
           writes := writes st ++ [Insert r];
           rejected := rejected st |}
    end
  else
    {| catalog := catalog st;
       writes := writes st;
       rejected := rejected st ++ [r] |}.

Definition reconcileAll (candidates : list IProductInfo) (st : State) : State :=
  fold_left reconcile candidates st.

(** Modelled from the spec: the flattening of a batch into one candidate
    sequence, [null] categories skipped. *)
Definition flattenBatch (b : ScrapeBatch) : list IProductInfo :=
  concat (omap snd (map_to_list b)).

Definition start (c : list CatalogEntry) : State :=
  {| catalog := c; writes := []; rejected := [] |}.

(** Modelled from the spec: [ProductProcessor.processScrapeResults], run
    against the catalog [c]. *)
Definition processScrapeResults (b : ScrapeBatch) (c : list CatalogEntry)
    : State :=
  reconcileAll (flattenBatch b) (start c).

(** The catalog holds [r]: some entry carries exactly the fields of [r]. *)
Definition holds (c : list CatalogEntry) (r : IProductInfo) : Prop :=
  exists e, In e c /\ entryProduct e = r.

(** The lookup by identity key finds an entry that carries exactly [r]. *)
Definition stored (c : list CatalogEntry) (r : IProductInfo) : Prop :=
  exists e, findEntry (identityKey r) c = Some e /\ entryProduct e = r.

(** Every entry of the catalog passes the gate. *)
Definition wellFormed (c : list CatalogEntry) : Prop :=
  Forall (fun e => validate (entryProduct e) = true) c.

(** No two valid candidates share an identity key and differ elsewhere. *)
Definition consistent (candidates : list IProductInfo) : Prop :=
  forall r1 r2,
    In r1 candidates -> In r2 candidates ->
    validate r1 = true -> validate r2 = true ->
    identityKey r1 = identityKey r2 -> r1 = r2.

End Reconciler.

(** ** Properties of events and of the pagination step, used in statements *)

(** The events of the pagination loop and of the settle delay. *)
Definition isPaginationEvent (ev : Event) : bool :=
  match ev with
  | ESleep _ | EEval _ | EClick _ => true
  | _ => false
  end.

Definition fulfilled {A} (o : Outcome A) : bool :=
  match o with
  | Fulfilled _ => true
  | Threw _ => false
  end.

(** After [n] clicks, both the probe and the click of a turn go through. *)
Definition stepSucceeds {Element} (site : Site Element) (n : nat) : bool :=
  fulfilled (loadMoreProbe site n) && fulfilled (loadMoreClick site n).

(** The events of one complete turn, and of the turn that ends the loop. *)
Definition fullTurn (delay : Z) : list Event :=
  [ESleep delay; EEval loadMoreSelector; EClick loadMoreSelector].

Definition lastTurn {Element} (site : Site Element) (delay : Z) (n : nat)
    : list Event :=
  if fulfilled (loadMoreProbe site n)
  then [ESleep delay; EEval loadMoreSelector; EClick loadMoreSelector]
  else [ESleep delay; EEval loadMoreSelector].

Fixpoint repeatTurns (n : nat) (turn : list Event) : list Event :=
  match n with
  | O => []
  | S n' => turn ++ repeatTurns n' turn
  end.

(** ** Sample pages, used to evaluate the definitions *)

Module Sample.

(** A product cell reduced to the five properties the extractors read. *)
Record Cell : Type := mkCell {
  ariaLabel : JsVal;
  imageSrc : JsVal;
  textContent : JsVal;
  priceValue : JsVal;
  href : JsVal
}.

#[global] Instance cellExtractors : Extractors Cell := {
  extractFromAria c _ := ariaLabel c;
  extractProductImage c _ := imageSrc c;
  extractTextContent c _ := textContent c;
  extractFromValue c _ := priceValue c;
  extractProductURL base c _ :=
    match href c with
    | JStr h => JStr (base ++ h)
    | JUndefined => JUndefined
    end
}.

Definition groundBeef : Cell :=
  {| ariaLabel := JStr "Ground Beef";
     imageSrc := JStr "https://www.kroger.com/product/images/beef.jpg";
     textContent := JStr "$2.99/lb";
     priceValue := JStr "5.49";
     href := JStr "/p/ground-beef/0001" |}.

Definition bananas : Cell :=
  {| ariaLabel := JStr "Bananas";
     imageSrc := JStr "https://www.kroger.com/product/images/bananas.jpg";
     textContent := JStr "about 3 each";
     priceValue := JStr "2.99";
     href := JStr "/p/bananas/0002" |}.

(** A cell on which every selector matches nothing. *)
Definition blank : Cell :=
  {| ariaLabel := JUndefined; imageSrc := JUndefined;
     textContent := JUndefined; priceValue := JUndefined;
     href := JUndefined |}.

(** A grid that shows one more cell after each click. *)
Definition growingGrid : ElementHandle Cell :=
  mkGrid (fun n => firstn (S n) [groundBeef; bananas; blank]).

Definition emptyGrid : ElementHandle Cell := mkGrid (fun _ => []).

(** The "load more" control is there twice, then gone. *)
Definition twoMorePages : Site Cell :=
  {| navigation := Fulfilled tt;
     autoGrid := Fulfilled (Some growingGrid);
     loadMoreProbe n := if (n <? 2)%nat then Fulfilled tt else Threw NoElementError;
     loadMoreClick _ := Fulfilled tt |}.

(** The control is always there, but the first click on it fails. *)
Definition clickFails : Site Cell :=
  {| navigation := Fulfilled tt;
     autoGrid := Fulfilled (Some growingGrid);
     loadMoreProbe _ := Fulfilled tt;
     loadMoreClick _ := Threw ClickError |}.

(** The product grid never appears. *)
Definition gridNeverAppears : Site Cell :=
  {| navigation := Fulfilled tt;
     autoGrid := puppeteerWaitForSelector defaultTimeout None emptyGrid;
     loadMoreProbe _ := Threw NoElementError;
     loadMoreClick _ := Threw ClickError |}.

(** The product grid is there and has no cell. *)
Definition gridIsEmpty : Site Cell :=
  {| navigation := Fulfilled tt;
     autoGrid := puppeteerWaitForSelector defaultTimeout (Some 1200) emptyGrid;
     loadMoreProbe _ := Threw NoElementError;
     loadMoreClick _ := Threw ClickError |}.

(** A browser in front of a shop whose meat page is missing its grid. *)
Definition shop : Browser Cell :=
  fun url =>
    if String.eqb url "https://www.fredmeyer.com/pl/meat-seafood/18004"
    then gridNeverAppears
    else twoMorePages.

Definition beef (price : string) : IProductInfo :=
  {| productName := JStr "Ground Beef";
     storeName := JStr "Fred Meyer";
     productPrice := JStr price;
     productLink := JStr "https://www.fredmeyer.com/p/ground-beef/0001";
     productImage := JStr "https://www.kroger.com/product/images/beef.jpg" |}.

Definition noPrice : IProductInfo :=
  {| productName := JStr "Bananas";
     storeName := JStr "Fred Meyer";
     productPrice := JUndefined;
     productLink := JStr "https://www.fredmeyer.com/p/bananas/0002";
     productImage := JStr "https://www.kroger.com/product/images/bananas.jpg" |}.

(** A batch with a complete record, an incomplete one and a [null]
    category. *)
Definition mixedBatch : ScrapeBatch :=
  <["meat" := Some [beef "$4.99"; noPrice]]> (<["produce" := None]> ∅).

(** A batch in which one product appears twice, at two prices. *)
Definition twoPrices : ScrapeBatch :=
  <["meat" := Some [beef "$4.99"; beef "$5.49"]]> ∅.

End Sample.

(** ** Measures of a page's events *)

(** The time, in ms, that the events of a call spend in
    [sleepBeforeOperation]. *)
Fixpoint sleepTime (events : list Event) : Z :=
  match events with
  | [] => 0
  | ESleep ms :: rest => ms + sleepTime rest
  | _ :: rest => sleepTime rest
  end.

(** ** More sample pages *)

Module MoreSamples.

(** The "load more" control never goes away and every click goes through. *)
Definition endlessPages : Site Sample.Cell :=
  {| navigation := Fulfilled tt;
     autoGrid := Fulfilled (Some Sample.growingGrid);
     loadMoreProbe _ := Fulfilled tt;
     loadMoreClick _ := Fulfilled tt |}.

(** The navigation itself fails. *)
Definition unreachable : Site Sample.Cell :=
  {| navigation := Threw NavigationError;
     autoGrid := Fulfilled (Some Sample.growingGrid);
     loadMoreProbe _ := Fulfilled tt;
     loadMoreClick _ := Fulfilled tt |}.

(** A single page of products: the grid is there, the control is not. *)
Definition singlePage : Site Sample.Cell :=
  {| navigation := Fulfilled tt;
     autoGrid := Fulfilled (Some Sample.growingGrid);
     loadMoreProbe _ := Threw NoElementError;
     loadMoreClick _ := Threw ClickError |}.

End MoreSamples.

(** ** The routes of the [App] class

    The router of [routes()] as a table, and Express's way of choosing a
    route for a request: a route registered with [router.get] takes [GET]
    and [HEAD] requests, the others take their own method; a route path
    matches a request path segment by segment, letter case ignored, a
    [:name] segment standing for any non-empty segment, and one trailing
    slash allowed.  What a handler does is recorded as the call it makes on
    the product or customer model. *)

Module App.

Inductive Method : Type :=
| GET | HEAD | POST | PUT | DELETE | PATCH | OPTIONS.

#[global] Instance Method_eq_dec : EqDecision Method.
Proof. solve_decision. Defined.

Inductive Segment : Type :=
| Literal (text : string)
| Param (name : string).

(** The call a handler makes: [this.Products.retrieveAllProducts(res)],
    [this.Customer.deleteOneProductFromSFL(res, productID)], ... *)
Inductive ModelCall : Type :=
| retrieveAllProducts
| retrieveSaveForLater
| saveComparisonForLater
| deleteAllProductsFromSFL
| deleteOneProductFromSFL (productID : JsVal)
| retrieveProductByID (productID : JsVal).

(** [req.params]: the named segments of the matched path. *)
Definition Params : Type := list (string * string).

Fixpoint getParam (params : Params) (name : string) : JsVal :=
  match params with
  | [] => JUndefined
  | (key, value) :: rest =>
      if String.eqb key name then JStr value else getParam rest name
  end.

Record Route : Type := mkRoute {
  routeMethod : Method;
  routePath : string;
  routeHandler : Params -> ModelCall
}.

(** The six routes, in the order in which [routes()] registers them. *)
Definition routes : list Route :=
  [ {| routeMethod := GET; routePath := "/api/products";
       routeHandler := fun _ => retrieveAllProducts |};
    {| routeMethod := GET; routePath := "/api/save-for-later";
       routeHandler := fun _ => retrieveSaveForLater |};
    {| routeMethod := POST; routePath := "/api/customer/save-for-later";
       routeHandler := fun _ => saveComparisonForLater |};
    {| routeMethod := DELETE;
       routePath := "/api/customer/delete-all-products-from-sfl";
       routeHandler := fun _ => deleteAllProductsFromSFL |};
    {| routeMethod := DELETE;
       routePath := "/api/customer/delete-one-product-from-sfl/:productID";
       routeHandler :=
         fun params => deleteOneProductFromSFL (getParam params "productID") |};
    {| routeMethod := GET; routePath := "/api/product/:productID";
       routeHandler :=
         fun params => retrieveProductByID (getParam params "productID") |} ].

(** *** Paths *)

(** The pieces of [s] between slashes; [current] is the piece being read. *)
Fixpoint splitSlash (s : string) (current : string) : list string :=
  match s with
  | EmptyString => [current]
  | String c rest =>
      if Ascii.eqb c "/" then current :: splitSlash rest ""
      else splitSlash rest (current ++ String c "")
  end.

(** One trailing slash, that is one empty last segment, is dropped. *)
Fixpoint dropTrailingSlash (segments : list string) : list string :=
  match segments with
  | [] => []
  | [last] => if String.eqb last "" then [] else [last]
  | segment :: rest => segment :: dropTrailingSlash rest
  end.

(** The segments of a path that begins with a slash. *)
Definition pathSegments (path : string) : option (list string) :=
  match path with
  | String "/" rest => Some (dropTrailingSlash (splitSlash rest ""))
  | _ => None
  end.

Definition toSegment (piece : string) : Segment :=
  match piece with
  | String ":" name => Param name
  | _ => Literal piece
  end.

(** The segments of a route path. *)
Definition routeSegments (path : string) : list Segment :=
  match pathSegments path with
  | Some pieces => List.map toSegment pieces
  | None => []
  end.

Definition toLower (c : ascii) : ascii :=
  let n := N_of_ascii c in
  if ((65 <=? n) && (n <=? 90))%N then ascii_of_N (n + 32) else c.

Fixpoint lowerCase (s : string) : string :=
  match s with
  | EmptyString => EmptyString
  | String c rest => String (toLower c) (lowerCase rest)
  end.

Definition sameText (a b : string) : bool :=
  String.eqb (lowerCase a) (lowerCase b).

(** The parameters that a route path binds on a request path, when it
    matches.  A parameter is bound to the segment as it stands: this is what
    Express passes for a segment without percent signs; a segment with them
    is decoded by Express first, and refused when it cannot be decoded,
    which is not followed here. *)
Fixpoint matchSegments (pattern : list Segment) (segments : list string)
    : option Params :=
  match pattern, segments with
  | [], [] => Some []
  | Literal text :: pattern', segment :: segments' =>
      if sameText text segment then matchSegments pattern' segments' else None
  | Param name :: pattern', segment :: segments' =>
      if String.eqb segment "" then None
      else
        match matchSegments pattern' segments' with
        | Some params => Some ((name, segment) :: params)
        | None => None
        end
  | _, _ => None
  end.

(** A [router.get] route also takes [HEAD] requests. *)
Definition takesMethod (route request : Method) : bool :=
  bool_decide (route = request) ||
  (bool_decide (route = GET) && bool_decide (request = HEAD)).

(** The parameters with which [route] takes the request, if it does. *)
Definition routeMatch (route : Route) (method : Method) (path : string)
    : option Params :=
  if takesMethod (routeMethod route) method then
    match pathSegments path with
    | Some segments => matchSegments (routeSegments (routePath route)) segments
    | None => None
    end
  else None.

(** The first route of the table that takes the request runs its handler. *)
Fixpoint dispatchIn (table : list Route) (method : Method) (path : string)
    : option ModelCall :=
  match table with
  | [] => None
  | route :: rest =>
      match routeMatch route method path with
      | Some params => Some (routeHandler route params)
      | None => dispatchIn rest method path
      end
  end.

(** The call that a request leads to; [None] when no handler of the router
    runs and the request goes on to the static files. *)
Definition dispatch (method : Method) (path : string) : option ModelCall :=
  dispatchIn routes method path.

(** Two route paths that some request path could both match. *)
Fixpoint overlap (pattern1 pattern2 : list Segment) : bool :=
  match pattern1, pattern2 with
  | [], [] => true
  | Literal a :: rest1, Literal b :: rest2 => sameText a b && overlap rest1 rest2
  | _ :: rest1, _ :: rest2 => overlap rest1 rest2
  | _, _ => false
  end.

(** No slash occurs in [s]. *)
Fixpoint noSlash (s : string) : bool :=
  match s with
  | EmptyString => true
  | String c rest => negb (Ascii.eqb c "/") && noSlash rest
  end.

(** No percent sign occurs in [s]: nothing for [decodeURIComponent], which
    Express applies to a parameter, to decode. *)
Fixpoint noPercent (s : string) : bool :=
  match s with
  | EmptyString => true
  | String c rest => negb (Ascii.eqb c "%") && noPercent rest
  end.

End App.

(** * Properties *)

(** ** [scrapePage] *)

Section ScrapePageFacts.

Context {Element : Type} `{extractorObj : Extractors Element}.

Lemma scrapeCells_app (cells : list Element) (acc : list IProductInfo) :
  scrapeCells cells acc = (acc ++ List.map scrapeProduct cells)%list.
Proof.
  revert acc; induction cells as [|cell cells IH]; intros acc; simpl.
  - by rewrite app_nil_r.
  - rewrite IH. by rewrite <- app_assoc.
Qed.

Lemma scrapePageCells_map (cells : list Element) :
  scrapePageCells cells = List.map scrapeProduct cells.
Proof. unfold scrapePageCells. by rewrite scrapeCells_app. Qed.

Lemma scrapePage_run (grid : ElementHandle Element) (s : PageState) :
  scrapePage grid s =
    (Resolved (List.map scrapeProduct (gridCells grid (clicks s))),
     {| clicks := clicks s;
        trace := trace s ++ [EQueryAll ".AutoGrid-cell > *"] |}).
Proof.
  unfold scrapePage, queryAll, bind, emit, ret; simpl.
  by rewrite scrapePageCells_map.
Qed.

End ScrapePageFacts.

Section ScrapePageClaims.

Context {Element : Type} `{extractorObj : Extractors Element}.

(** C7.  [scrapePage] fulfils with exactly one record per matched cell, in
    the order of the cells, whatever the extractions returned: the record
    of a cell is the one built from its five extractions, undefined fields
    included. *)
Theorem scrapePage_one_record_per_cell
    (grid : ElementHandle Element) (s : PageState) :
  exists records s',
    scrapePage grid s = (Resolved records, s') /\
    length records = length (gridCells grid (clicks s)) /\
    forall i product,
      gridCells grid (clicks s) !! i = Some product ->
      records !! i = Some (scrapeProduct product).
Proof.
  eexists _, _. split; [apply scrapePage_run|]. split.
  - by rewrite length_map.
  - intros i product Hi.
    change (List.map scrapeProduct) with (fmap (M:=list) scrapeProduct).
    by rewrite list_lookup_fmap, Hi.
Qed.

(** C10.  Every record that [scrapePage] emits has the store name
    ["Fred Meyer"], whatever the cells contain. *)
Theorem scrapePage_storeName (grid : ElementHandle Element) (s : PageState) :
  exists records s',
    scrapePage grid s = (Resolved records, s') /\
    Forall (fun r => storeName r = JStr "Fred Meyer") records.
Proof.
  eexists _, _. split; [apply scrapePage_run|].
  induction (gridCells grid (clicks s)) as [|cell cells IH]; simpl;
    constructor; [reflexivity | exact IH].
Qed.

End ScrapePageClaims.

(** The third cell of the sample grid is blank; its record is there all the
    same. *)
Lemma scrapePage_one_record_per_cell_blank :
  exists records s',
    scrapePage Sample.growingGrid {| clicks := 2; trace := [] |} =
      (Resolved records, s') /\
    length records = 3%nat /\
    records !! 2%nat = Some (scrapeProduct Sample.blank).
Proof.
  destruct (scrapePage_one_record_per_cell Sample.growingGrid
              {| clicks := 2; trace := [] |})
    as (records & s' & Hrun & Hlength & Hcell).
  exists records, s'. split; [exact Hrun|]. split; [exact Hlength|].
  apply Hcell. reflexivity.
Defined.

(** The two prices of the specification, and a cell whose extractions all
    come back undefined. *)
Example price_per_pound_kept :
  productPrice (scrapeProduct Sample.groundBeef) = JStr "$2.99/lb".
Proof. reflexivity. Qed.

Example price_from_value_prefixed :
  productPrice (scrapeProduct Sample.bananas) = JStr "$2.99".
Proof. reflexivity. Qed.

Example blank_cell_still_emitted :
  fst (scrapePage Sample.growingGrid {| clicks := 2; trace := [] |}) =
    Resolved
      [scrapeProduct Sample.groundBeef; scrapeProduct Sample.bananas;
       {| productName := JUndefined; storeName := JStr "Fred Meyer";
          productPrice := JStr "$undefined"; productLink := JUndefined;
          productImage := JUndefined |}].
Proof. reflexivity. Qed.

(** ** The pattern of per-pound prices *)

Section RegexFacts.

Lemma append_nil_inv (s1 s2 : string) :
  s1 ++ s2 = "" -> s1 = "" /\ s2 = "".
Proof. destruct s1; simpl; [tauto | discriminate]. Qed.

Lemma nullable_Matches (r : regex) : nullable r = true <-> Matches r "".
Proof.
  split.
  - induction r; simpl; intros Hn; try discriminate.
    + constructor.
    + apply andb_true_iff in Hn as [H1 H2].
      change "" with ("" ++ ""). constructor; auto.
    + apply orb_true_iff in Hn as [H1|H2];
        [apply MAltL | apply MAltR]; auto.
    + constructor.
  - intros Hm. remember "" as w eqn:Hw.
    induction Hm; simpl; subst; try discriminate; auto.
    + apply append_nil_inv in Hw as [-> ->].
      rewrite IHHm1, IHHm2; auto.
    + rewrite IHHm; auto.
    + rewrite IHHm; auto. apply orb_true_r.
Qed.

Lemma deriv_sound (c : ascii) (r : regex) (s : string) :
  Matches (deriv c r) s -> Matches r (String c s).
Proof.
  revert s; induction r; simpl; intros s Hm.
  - inversion Hm.
  - inversion Hm.
  - destruct (p c) eqn:Hp; inversion Hm; subst. by constructor.
  - assert (Hseq : forall w, Matches (Seq (deriv c r1) r2) w ->
                             Matches (Seq r1 r2) (String c w)).
    { intros w Hw. inversion Hw; subst.
      change (String c (s1 ++ s2)) with (String c s1 ++ s2).
      constructor; auto. }
    destruct (nullable r1) eqn:Hn; [|by apply Hseq].
    inversion Hm; subst; [by apply Hseq|].
    change (String c s) with ("" ++ String c s).
    constructor; [by apply nullable_Matches | auto].
  - inversion Hm; subst; [apply MAltL | apply MAltR]; auto.
  - inversion Hm; subst.
    change (String c (s1 ++ s2)) with (String c s1 ++ s2).
    constructor; auto.
Qed.

Lemma deriv_complete (c : ascii) (r : regex) (s : string) :
  Matches r (String c s) -> Matches (deriv c r) s.
Proof.
  intros Hm. remember (String c s) as w eqn:Hw. revert c s Hw.
  induction Hm; intros c0 s0 Hw; simpl; try discriminate.
  - injection Hw as -> <-. rewrite H. constructor.
  - destruct s1 as [|c1 s1].
    + change ("" ++ s2) with s2 in Hw.
      subst s2. apply nullable_Matches in Hm1. rewrite Hm1.
      apply MAltR. by apply IHHm2.
    + change (String c1 s1 ++ s2) with (String c1 (s1 ++ s2)) in Hw.
      injection Hw as -> <-.
      assert (Hd : Matches (Seq (deriv c0 r1) r2) (s1 ++ s2))
        by (constructor; auto).
      destruct (nullable r1); [by apply MAltL | done].
  - apply MAltL. by apply IHHm.
  - apply MAltR. by apply IHHm.
  - change (String c s1 ++ s2) with (String c (s1 ++ s2)) in Hw.
    injection Hw as -> <-. constructor; auto.
Qed.

(** The matcher decides the denotation. *)
Lemma regexTest_Matches (r : regex) (s : string) :
  regexTest r s = true <-> Matches r s.
Proof.
  revert r; induction s as [|c s IH]; intros r; simpl.
  - apply nullable_Matches.
  - rewrite IH. split; [apply deriv_sound | apply deriv_complete].
Qed.

Lemma Matches_Star_Class (p : ascii -> bool) (s : string) :
  Matches (Star (Class p)) s <-> stringForall p s = true.
Proof.
  split.
  - intros Hm. remember (Star (Class p)) as r eqn:Hr.
    induction Hm; try discriminate; [reflexivity|].
    injection Hr as ->. inversion Hm1; subst. simpl.
    rewrite H1. by apply IHHm2.
  - induction s as [|c s IH]; simpl; intros Hs; [constructor|].
    apply andb_true_iff in Hs as [Hc Hs].
    change (String c s) with (String c "" ++ s).
    constructor; [by constructor | auto].
Qed.

Lemma Matches_Lit (c : ascii) (s : string) :
  Matches (Lit c) s <-> s = String c "".
Proof.
  unfold Lit. split.
  - intros Hm. inversion Hm; subst.
    by apply Ascii.eqb_eq in H0 as ->.
  - intros ->. constructor. apply Ascii.eqb_refl.
Qed.

(** X11.  [/^\$[\d.]+\/lb$/] accepts exactly a dollar sign, one or more digits
    or dots, and [/lb]. *)
Lemma pricePerPoundRegex_spec (s : string) :
  regexTest pricePerPoundRegex s = true <->
  exists digits,
    digits <> "" /\ stringForall isDigitOrDot digits = true /\
    s = "$" ++ digits ++ "/lb".
Proof.
  rewrite regexTest_Matches. unfold pricePerPoundRegex, Plus. split.
  - intros Hm.
    inversion Hm as [| |? ? d rest Hd Hrest| | | |]; subst.
    apply Matches_Lit in Hd as ->.
    inversion Hrest as [| |? ? ds tail Hds Htail| | | |]; subst.
    inversion Hds as [| |? ? d1 dn Hd1 Hdn| | | |]; subst.
    inversion Hd1; subst.
    apply Matches_Star_Class in Hdn.
    inversion Htail as [| |? ? t1 t2 Ht1 Ht2| | | |]; subst.
    apply Matches_Lit in Ht1 as ->.
    inversion Ht2 as [| |? ? t3 t4 Ht3 Ht4| | | |]; subst.
    apply Matches_Lit in Ht3 as ->. apply Matches_Lit in Ht4 as ->.
    exists (String c dn). split; [discriminate|]. split; [|reflexivity].
    simpl. by rewrite H0, Hdn.
  - intros (digits & Hne & Hall & ->).
    destruct digits as [|d ds]; [done|]. simpl in Hall.
    apply andb_true_iff in Hall as [Hd Hds].
    constructor; [by apply Matches_Lit|].
    change (String d ds ++ "/lb") with ((String d "" ++ ds) ++ "/lb").
    constructor.
    + constructor; [by constructor | by apply Matches_Star_Class].
    + change "/lb" with ("/" ++ "l" ++ "b").
      constructor; [by apply Matches_Lit|].
      constructor; by apply Matches_Lit.
Qed.

End RegexFacts.

(** ** The price of a cell *)

Section PriceClaim.

Context {Element : Type} `{extractorObj : Extractors Element}.

Lemma isDigitOrDot_priceCharacters (c : ascii) :
  isDigitOrDot c = true <-> In c priceCharacters.
Proof.
  assert (Hsame : isDigitOrDot c = existsb (Ascii.eqb c) priceCharacters)
    by (destruct c as [[] [] [] [] [] [] [] []]; reflexivity).
  rewrite Hsame, existsb_exists. split.
  - intros (x & Hin & Heq). by apply Ascii.eqb_eq in Heq as ->.
  - intros Hin. exists c. split; [exact Hin | apply Ascii.eqb_refl].
Qed.

Lemma stringForall_priceCharacters (amount : string) :
  stringForall isDigitOrDot amount = true <->
  forall c, In c (list_ascii_of_string amount) -> In c priceCharacters.
Proof.
  induction amount as [|a amount IH]; simpl.
  - split; [intros _ c [] | done].
  - rewrite andb_true_iff, isDigitOrDot_priceCharacters, IH. split.
    + intros [Ha Hrest] c [<-|Hc]; [exact Ha | by apply Hrest].
    + intros Hall. split; [apply Hall; by left|].
      intros c Hc. apply Hall. by right.
Qed.

(** The matcher of the code accepts exactly the texts of the worded
    pattern. *)
Lemma pricePerPoundRegex_accepts (s : string) :
  regexTest pricePerPoundRegex s = true <-> PerUnitPriceText s.
Proof.
  rewrite regexTest_Matches. unfold pricePerPoundRegex, Plus, PerUnitPriceText.
  split.
  - intros Hm.
    inversion Hm as [| |? ? dollar rest Hdollar Hrest| | | |]; subst.
    apply Matches_Lit in Hdollar as ->.
    inversion Hrest as [| |? ? amount tail Hamount Htail| | | |]; subst.
    inversion Hamount as [| |? ? first more Hfirst Hmore| | | |]; subst.
    inversion Hfirst as [|? c Hc| | | | |]; subst.
    apply Matches_Star_Class in Hmore.
    inversion Htail as [| |? ? t1 t2 Ht1 Ht2| | | |]; subst.
    apply Matches_Lit in Ht1 as ->.
    inversion Ht2 as [| |? ? t3 t4 Ht3 Ht4| | | |]; subst.
    apply Matches_Lit in Ht3 as ->. apply Matches_Lit in Ht4 as ->.
    exists (String c more). split; [discriminate|]. split; [|reflexivity].
    apply stringForall_priceCharacters. simpl. by rewrite Hc, Hmore.
  - intros (amount & Hne & Hall & ->).
    apply stringForall_priceCharacters in Hall.
    destruct amount as [|a amount]; [done|]. simpl in Hall.
    apply andb_true_iff in Hall as [Ha Hrest].
    constructor; [by apply Matches_Lit|].
    change (String a amount ++ "/lb") with ((String a "" ++ amount) ++ "/lb").
    constructor.
    + constructor; [by constructor | by apply Matches_Star_Class].
    + change "/lb" with ("/" ++ "l" ++ "b").
      constructor; [by apply Matches_Lit|].
      constructor; by apply Matches_Lit.
Qed.

(** C6.  For every cell that [scrapePage] visits: when the text extracted
    from the cell is a per-unit price (a dollar sign, one or more digits or
    dots, [/lb]), that text is the price of the record, unchanged; otherwise
    the price is ["$"] followed by the value that the fallback extraction
    returns.  So the text ["$2.99/lb"] is kept as it is, and the value
    ["2.99"] of a cell without such a text becomes ["$2.99"]. *)
Theorem scrapePage_price (grid : ElementHandle Element) (s : PageState) :
  exists records s',
    scrapePage grid s = (Resolved records, s') /\
    Forall2
      (fun product r =>
         let text := extractTextContent product "div > * >.kds-Text--s" in
         let value := extractFromValue product ".kds-Price--alternate" in
         (PerUnitPriceText (ToString text) -> productPrice r = text) /\
         (~ PerUnitPriceText (ToString text) ->
          productPrice r = JStr ("$" ++ ToString value)) /\
         (text = JStr "$2.99/lb" -> productPrice r = JStr "$2.99/lb") /\
         (~ PerUnitPriceText (ToString text) -> value = JStr "2.99" ->
          productPrice r = JStr "$2.99"))
      (gridCells grid (clicks s)) records.
Proof.
  eexists _, _. split; [apply scrapePage_run|].
  induction (gridCells grid (clicks s)) as [|cell cells IH]; simpl.
  - constructor.
  - constructor; [|exact IH].
    unfold scrapeProduct, extractPrice, strPlus; simpl.
    destruct (regexTest pricePerPoundRegex _) eqn:Htest; simpl.
    + apply pricePerPoundRegex_accepts in Htest.
      split; [done|]. split; [done|]. split; [|done].
      intros Htext. by rewrite Htext.
    + assert (Hnot : ~ PerUnitPriceText
                       (ToString (extractTextContent cell "div > * >.kds-Text--s"))).
      { intros Hyes. apply pricePerPoundRegex_accepts in Hyes. congruence. }
      split; [done|]. split; [done|]. split.
      * intros Htext. rewrite Htext in Htest. done.
      * intros _ ->. reflexivity.
Qed.

End PriceClaim.

(** A cell with the text ["$2.99/lb"] and a cell whose text is no price but
    whose price element has the value ["2.99"]. *)
Lemma scrapePage_price_sample :
  exists records s',
    scrapePage Sample.growingGrid {| clicks := 1; trace := [] |} =
      (Resolved records, s') /\
    List.map productPrice records = [JStr "$2.99/lb"; JStr "$2.99"].
Proof.
  destruct (scrapePage_price Sample.growingGrid {| clicks := 1; trace := [] |})
    as (records & s' & Hrun & Hprices).
  exists records, s'. split; [exact Hrun|].
  change (gridCells Sample.growingGrid
            (clicks {| clicks := 1; trace := [] |}))
    with [Sample.groundBeef; Sample.bananas] in Hprices.
  inversion Hprices as [|beef r1 rest1 records1 Hbeef Hrest]; subst.
  inversion Hrest as [|bananas r2 rest2 records2 Hbananas Hnil]; subst.
  inversion Hnil; subst.
  destruct Hbeef as (_ & _ & Hkept & _).
  destruct Hbananas as (_ & _ & _ & Hvalue).
  simpl. rewrite Hkept by reflexivity. rewrite Hvalue; [reflexivity| |reflexivity].
  intros (amount & _ & _ & Htext).
  change ("$" ++ amount ++ "/lb") with (String "$" (amount ++ "/lb")) in Htext.
  discriminate Htext.
Defined.

(** ** The coordinator *)

Section CoordinatorFacts.

Context {Element : Type}.
Implicit Types (browser : Browser Element) (scrapeFn : @ScrapeFn Element).
Implicit Types (urls : gmap string string) (run : ScrapeRun).

Lemma scrapeMultipleURLs_settled browser urls recursive scrapeFn :
  (forall key url,
      urls !! key = Some url ->
      settled (fst (scrapeFn url browser recursive)) = true) ->
  is_Some (scrapeMultipleURLs browser urls recursive scrapeFn).
Proof.
  intros Hsettled. unfold scrapeMultipleURLs.
  case_decide as Hall; [by eexists|].
  exfalso. apply Hall. intros key task.
  rewrite lookup_fmap. destruct (urls !! key) as [url|] eqn:Hkey; [|done].
  simpl. intros [= <-]. by apply (Hsettled key).
Qed.

Lemma scrapeMultipleURLs_batch browser urls recursive scrapeFn run key :
  scrapeMultipleURLs browser urls recursive scrapeFn = Some run ->
  batch run !! key =
    (fun url => categoryResult (fst (scrapeFn url browser recursive)))
      <$> urls !! key.
Proof.
  unfold scrapeMultipleURLs. case_decide; [|done]. intros [= <-]. simpl.
  rewrite !lookup_fmap. by destruct (urls !! key).
Qed.

Lemma scrapeMultipleURLs_events browser urls recursive scrapeFn run key :
  scrapeMultipleURLs browser urls recursive scrapeFn = Some run ->
  pageEvents run !! key =
    (fun url => trace (snd (scrapeFn url browser recursive))) <$> urls !! key.
Proof.
  unfold scrapeMultipleURLs. case_decide; [|done]. intros [= <-]. simpl.
  rewrite !lookup_fmap. by destruct (urls !! key).
Qed.

Lemma scrapeMultipleURLs_dom browser urls recursive scrapeFn run :
  scrapeMultipleURLs browser urls recursive scrapeFn = Some run ->
  dom (batch run) = dom urls.
Proof.
  intros Hrun. apply set_eq. intros key.
  rewrite !elem_of_dom, (scrapeMultipleURLs_batch _ _ _ _ _ _ Hrun).
  by rewrite fmap_is_Some.
Qed.

End CoordinatorFacts.

Lemma urls_dom :
  dom urls =
    ({["meat"; "produce"; "milk"; "cheese"; "butter"; "eggs"]} : gset string).
Proof. unfold urls. rewrite !dom_insert_L, dom_empty_L. set_solver. Qed.

(** ** [scrapeSite] without pagination *)

Section ScrapeSiteFacts.

Context {Element : Type} `{extractorObj : Extractors Element}.
Variable env : gmap string string.

(** The whole of a call with [scrapeRecursively = false]. *)
Lemma scrapeSite_first_page (fuel : nat) (url : string)
    (browser : Browser Element) :
  runScrapeSite env fuel url browser false =
    match navigation (browser url) with
    | Threw e =>
        (Rejected e, {| clicks := 0; trace := [ENewPage; EGoto url] |})
    | Fulfilled _ =>
        match autoGrid (browser url) with
        | Threw e =>
            (Rejected e,
             {| clicks := 0;
                trace := [ENewPage; EGoto url; EWaitForSelector ".AutoGrid"] |})
        | Fulfilled None =>
            (Resolved None,
             {| clicks := 0;
                trace := [ENewPage; EGoto url; EWaitForSelector ".AutoGrid"] |})
        | Fulfilled (Some grid) =>
            (Resolved (Some (List.map scrapeProduct (gridCells grid 0))),
             {| clicks := 0;
                trace := [ENewPage; EGoto url; EWaitForSelector ".AutoGrid";
                          EQueryAll ".AutoGrid-cell > *"] |})
        end
    end.
Proof.
  unfold runScrapeSite, scrapeSite, scrapePage, queryAll, newPage, goto,
    waitForSelector, bind, emit, await, ret, freshPage; simpl.
  destruct (navigation (browser url)); [|reflexivity].
  destruct (autoGrid (browser url)) as [[grid|]|]; try reflexivity.
  simpl. by rewrite scrapePageCells_map.
Qed.

Lemma scrapeSite_first_page_settled fuel url (browser : Browser Element) :
  settled (fst (runScrapeSite env fuel url browser false)) = true.
Proof.
  rewrite scrapeSite_first_page.
  destruct (navigation _); [|done]. by destruct (autoGrid _) as [[?|]|].
Qed.

Lemma scrapeSite_first_page_events fuel url (browser : Browser Element) :
  Forall (fun ev => isPaginationEvent ev = false)
    (trace (snd (runScrapeSite env fuel url browser false))).
Proof.
  rewrite scrapeSite_first_page.
  destruct (navigation _); [|by repeat constructor].
  destruct (autoGrid _) as [[?|]|]; by repeat constructor.
Qed.

Lemma scrapeSite_first_page_products fuel url (browser : Browser Element)
    products :
  categoryResult (fst (runScrapeSite env fuel url browser false)) =
    Some products ->
  exists grid,
    autoGrid (browser url) = Fulfilled (Some grid) /\
    products = scrapePageCells (gridCells grid 0).
Proof.
  rewrite scrapeSite_first_page.
  destruct (navigation _); [|done].
  destruct (autoGrid _) as [[grid|]|]; try done.
  simpl. intros [= <-]. exists grid. by rewrite scrapePageCells_map.
Qed.

End ScrapeSiteFacts.

(** ** The batch of a coordinated run *)

Section BatchClaims.

Context {Element : Type} `{extractorObj : Extractors Element}.

(** C2.  [scrapeMultipleURLs] returns a batch as soon as every category
    settles.  The batch it returns has exactly the caller's keys; the entry
    of a key is decided by the scrape of that key's URL alone, is [null]
    when that scrape failed (rejected or fulfilled with [null]), and stays
    the same when the scrapes of other URLs behave differently.
    [fredMeyerScraper] always returns a batch, and its keys are meat,
    produce, milk, cheese, butter and eggs. *)
Theorem scrapeMultipleURLs_keys_isolated
    (browser : Browser Element) (urls0 : gmap string string)
    (recursive : bool) (scrapeFn : ScrapeFn) :
  ((forall key url,
       urls0 !! key = Some url ->
       settled (fst (scrapeFn url browser recursive)) = true) ->
   is_Some (scrapeMultipleURLs browser urls0 recursive scrapeFn)) /\
  (forall run,
      scrapeMultipleURLs browser urls0 recursive scrapeFn = Some run ->
      dom (batch run) = dom urls0 /\
      (forall key url,
          urls0 !! key = Some url ->
          batch run !! key =
            Some (categoryResult (fst (scrapeFn url browser recursive)))) /\
      (forall key url,
          urls0 !! key = Some url ->
          failed (fst (scrapeFn url browser recursive)) = true ->
          batch run !! key = Some None) /\
      (forall (scrapeFn' : ScrapeFn) run' key url,
          scrapeMultipleURLs browser urls0 recursive scrapeFn' = Some run' ->
          urls0 !! key = Some url ->
          fst (scrapeFn' url browser recursive) =
            fst (scrapeFn url browser recursive) ->
          batch run' !! key = batch run !! key)) /\
  (forall env fuel,
      exists run,
        fredMeyerScraper env fuel browser = Some run /\
        dom (batch run) =
          ({["meat"; "produce"; "milk"; "cheese"; "butter"; "eggs"]}
             : gset string)).
Proof.
  split; [apply scrapeMultipleURLs_settled|]. split.
  - intros run Hrun. split; [by eapply scrapeMultipleURLs_dom|].
    split; [|split].
    + intros key url Hkey.
      by rewrite (scrapeMultipleURLs_batch _ _ _ _ _ _ Hrun), Hkey.
    + intros key url Hkey Hfailed.
      rewrite (scrapeMultipleURLs_batch _ _ _ _ _ _ Hrun), Hkey. simpl.
      destruct (fst (scrapeFn url browser recursive)) as [[?|]| |]; done.
    + intros scrapeFn' run' key url Hrun' Hkey Hsame.
      rewrite (scrapeMultipleURLs_batch _ _ _ _ _ _ Hrun),
        (scrapeMultipleURLs_batch _ _ _ _ _ _ Hrun'), Hkey.
      simpl. by rewrite Hsame.
  - intros env fuel.
    destruct (scrapeMultipleURLs_settled browser urls false
                (runScrapeSite env fuel)) as [run Hrun].
    { intros key url _. apply scrapeSite_first_page_settled. }
    exists run. split; [exact Hrun|].
    rewrite <- urls_dom. by eapply scrapeMultipleURLs_dom.
Qed.

(** C9.  [fredMeyerScraper] runs the coordinator with the recursive flag
    [false].  The run always returns; every one of its categories is the
    outcome of [scrapeSite] on that category's URL with the flag [false];
    the page of no category is ever asked to sleep, to probe or to click;
    and a product sequence in the batch is the extraction of the cells
    shown before any click. *)
Theorem fredMeyerScraper_first_page_only
    (env : gmap string string) (fuel : nat) (browser : Browser Element) :
  fredMeyerScraper env fuel browser =
    scrapeMultipleURLs browser urls false (runScrapeSite env fuel) /\
  exists run,
    fredMeyerScraper env fuel browser = Some run /\
    forall key url,
      urls !! key = Some url ->
      batch run !! key =
        Some (categoryResult (fst (runScrapeSite env fuel url browser false))) /\
      (exists events,
          pageEvents run !! key = Some events /\
          events = trace (snd (runScrapeSite env fuel url browser false)) /\
          Forall (fun ev => isPaginationEvent ev = false) events) /\
      (forall products,
          batch run !! key = Some (Some products) ->
          exists grid,
            autoGrid (browser url) = Fulfilled (Some grid) /\
            products = scrapePageCells (gridCells grid 0)).
Proof.
  split; [reflexivity|].
  destruct (scrapeMultipleURLs_settled browser urls false
              (runScrapeSite env fuel)) as [run Hrun].
  { intros key url _. apply scrapeSite_first_page_settled. }
  exists run. split; [exact Hrun|]. intros key url Hkey.
  pose proof (scrapeMultipleURLs_batch _ _ _ _ _ key Hrun) as Hbatch.
  pose proof (scrapeMultipleURLs_events _ _ _ _ _ key Hrun) as Hevents.
  rewrite Hkey in Hbatch, Hevents. simpl in Hbatch, Hevents.
  split; [exact Hbatch|]. split.
  - eexists. split; [exact Hevents|]. split; [reflexivity|].
    apply scrapeSite_first_page_events.
  - intros products Hproducts. rewrite Hbatch in Hproducts.
    injection Hproducts as Hproducts.
    by apply (scrapeSite_first_page_products env fuel).
Qed.

End BatchClaims.

(** The shop whose meat page has no grid: the meat entry is [null], the egg
    entry holds its first page. *)
Lemma scrapeMultipleURLs_keys_isolated_shop :
  exists run,
    scrapeMultipleURLs Sample.shop urls false (runScrapeSite ∅ 0) = Some run /\
    dom (batch run) = dom urls /\
    batch run !! "meat" = Some None /\
    batch run !! "eggs" = Some (Some [scrapeProduct Sample.groundBeef]).
Proof.
  destruct (scrapeMultipleURLs_keys_isolated Sample.shop urls false
              (runScrapeSite ∅ 0)) as (Hreturns & Hbatch & _).
  destruct Hreturns as [run Hrun].
  { intros key url _. apply scrapeSite_first_page_settled. }
  destruct (Hbatch run Hrun) as (Hdom & Hentry & Hfailed & _).
  exists run. split; [exact Hrun|]. split; [exact Hdom|]. split.
  - apply (Hfailed "meat" "https://www.fredmeyer.com/pl/meat-seafood/18004");
      vm_compute; reflexivity.
  - rewrite (Hentry "eggs"
               "https://www.fredmeyer.com/pl/eggs-egg-substitutes/02003");
      vm_compute; reflexivity.
Defined.

Lemma fredMeyerScraper_first_page_only_shop :
  exists run,
    fredMeyerScraper ∅ 0 Sample.shop = Some run /\
    pageEvents run !! "milk" =
      Some [ENewPage;
            EGoto "https://www.fredmeyer.com/pl/milk-plant-based-%20milk/02001";
            EWaitForSelector ".AutoGrid"; EQueryAll ".AutoGrid-cell > *"] /\
    batch run !! "milk" = Some (Some [scrapeProduct Sample.groundBeef]).
Proof.
  destruct (fredMeyerScraper_first_page_only ∅ 0 Sample.shop)
    as (_ & run & Hrun & Hcategory).
  exists run. split; [exact Hrun|].
  destruct (Hcategory "milk"
              "https://www.fredmeyer.com/pl/milk-plant-based-%20milk/02001")
    as (Hbatch & (events & Hevents & -> & _) & _).
  { vm_compute; reflexivity. }
  split.
  - rewrite Hevents. vm_compute. reflexivity.
  - rewrite Hbatch. vm_compute. reflexivity.
Defined.

(** ** The pagination loop *)

Section Pagination.

Context {Element : Type} `{extractorObj : Extractors Element}.
Variable env : gmap string string.
Variable site : Site Element.

Local Open Scope nat_scope.

Lemma loadMoreStep_success (s : PageState) :
  stepSucceeds site (clicks s) = true ->
  loadMoreStep env site s =
    (Resolved tt,
     {| clicks := S (clicks s);
        trace := trace s ++ fullTurn (clickDelay env) |}).
Proof.
  unfold stepSucceeds, loadMoreStep, sleepBeforeOperation, evalSelector,
    click, bind, emit, await, fullTurn; simpl.
  intros [Hprobe Hclick]%andb_true_iff.
  destruct (loadMoreProbe site (clicks s)); [|done].
  destruct (loadMoreClick site (clicks s)); [|done].
  by rewrite <- !app_assoc.
Qed.

Lemma loadMoreStep_failure (s : PageState) :
  stepSucceeds site (clicks s) = false ->
  exists e,
    loadMoreStep env site s =
      (Rejected e,
       {| clicks := clicks s;
          trace := trace s ++ lastTurn site (clickDelay env) (clicks s) |}).
Proof.
  unfold stepSucceeds, loadMoreStep, sleepBeforeOperation, evalSelector,
    click, bind, emit, await, lastTurn; simpl.
  destruct (loadMoreProbe site (clicks s)) as [|e]; simpl.
  - destruct (loadMoreClick site (clicks s)) as [|e]; [done|].
    intros _. exists e. by rewrite <- !app_assoc.
  - intros _. exists e. by rewrite <- !app_assoc.
Qed.

(** With the flag cleared the loop is over. *)
Lemma loadMoreLoop_done (fuel : nat) (s : PageState) :
  loadMoreLoop env fuel site false s = (Resolved tt, s).
Proof. by destruct fuel. Qed.

(** One turn of the loop from a state in which the flag is set. *)
Lemma loadMoreLoop_turn (fuel : nat) (s : PageState) :
  loadMoreLoop env (S fuel) site true s =
    if stepSucceeds site (clicks s)
    then loadMoreLoop env fuel site true
           {| clicks := S (clicks s);
              trace := trace s ++ fullTurn (clickDelay env) |}
    else (Resolved tt,
          {| clicks := clicks s;
             trace := trace s ++ lastTurn site (clickDelay env) (clicks s) |}).
Proof.
  destruct (stepSucceeds site (clicks s)) eqn:Hstep.
  - apply loadMoreStep_success in Hstep.
    cbn [loadMoreLoop]. unfold bind, tryCatch, ret. by rewrite Hstep.
  - apply loadMoreStep_failure in Hstep as [e Hstep].
    cbn [loadMoreLoop]. unfold bind, tryCatch, ret. rewrite Hstep.
    by rewrite loadMoreLoop_done.
Qed.

(** The loop up to the first turn that fails. *)
Lemma loadMoreLoop_run (N fuel : nat) (s : PageState) :
  (forall k, k < N -> stepSucceeds site (clicks s + k) = true) ->
  stepSucceeds site (clicks s + N) = false ->
  loadMoreLoop env fuel site true s =
    if fuel <=? N
    then (OutOfFuel,
          {| clicks := clicks s + fuel;
             trace := trace s ++ repeatTurns fuel (fullTurn (clickDelay env)) |})
    else (Resolved tt,
          {| clicks := clicks s + N;
             trace := trace s ++ repeatTurns N (fullTurn (clickDelay env)) ++
                      lastTurn site (clickDelay env) (clicks s + N) |}).
Proof.
  revert fuel s. induction N as [|N IH]; intros fuel s Hbefore Hfail.
  - destruct fuel as [|fuel].
    + destruct s. simpl. unfold outOfFuel. simpl.
      by rewrite Nat.add_0_r, app_nil_r.
    + rewrite loadMoreLoop_turn. rewrite Nat.add_0_r in Hfail.
      rewrite Hfail. simpl. by rewrite Nat.add_0_r.
  - destruct fuel as [|fuel].
    + destruct s. simpl. unfold outOfFuel. simpl.
      by rewrite Nat.add_0_r, app_nil_r.
    + rewrite loadMoreLoop_turn.
      rewrite <- (Nat.add_0_r (clicks s)) at 1.
      rewrite (Hbefore 0) by lia.
      rewrite IH; cbn [clicks trace].
      * rewrite !Nat.add_succ_r. simpl. rewrite <- !app_assoc. simpl.
        by destruct (fuel <=? N).
      * intros k Hk. rewrite Nat.add_succ_comm. apply Hbefore. lia.
      * by rewrite Nat.add_succ_comm.
Qed.

Lemma first_failing_turn (start N : nat) :
  stepSucceeds site (start + N) = false ->
  exists M,
    M <= N /\
    (forall k, k < M -> stepSucceeds site (start + k) = true) /\
    stepSucceeds site (start + M) = false.
Proof.
  revert start. induction N as [|N IH]; intros start Hfail.
  - exists 0. split; [lia|]. split; [intros; lia | done].
  - destruct (stepSucceeds site (start + 0)) eqn:Hnow.
    + destruct (IH (S start)) as (M & HM & Hbefore & Hat).
      { by rewrite Nat.add_succ_comm. }
      rewrite Nat.add_succ_comm in Hat.
      exists (S M). split; [lia|]. split; [|done].
      intros [|k] Hk; [done|].
      rewrite <- Nat.add_succ_comm. apply Hbefore. lia.
    + exists 0. split; [lia|]. split; [intros; lia | done].
Qed.

Lemma loadMoreLoop_stopped (fuel : nat) (s s' : PageState) :
  loadMoreLoop env fuel site true s = (Resolved tt, s') ->
  stepSucceeds site (clicks s') = false.
Proof.
  revert s. induction fuel as [|fuel IH]; intros s; [done|].
  rewrite loadMoreLoop_turn.
  destruct (stepSucceeds site (clicks s)) eqn:Hstep; [apply IH|].
  by intros [= <-].
Qed.

End Pagination.

(** ** [scrapeSite] with pagination *)

Section ScrapeSiteRecursive.

Context {Element : Type} `{extractorObj : Extractors Element}.
Variable env : gmap string string.

Local Open Scope nat_scope.

(** X1.  A call with [scrapeRecursively = true], on a page whose grid is
    found and whose [N+1]-st turn is the first to fail, fulfils with the
    products of the cells shown after [N] clicks.  Its events are, in order:
    new page, navigation, wait for the grid; [N] full turns; the failing
    turn; the settle sleep; the query of the cells. *)
Lemma scrapeSite_all_pages (fuel N : nat) (url : string)
    (browser : Browser Element) (grid : ElementHandle Element) :
  navigation (browser url) = Fulfilled tt ->
  autoGrid (browser url) = Fulfilled (Some grid) ->
  (forall k, k < N -> stepSucceeds (browser url) k = true) ->
  stepSucceeds (browser url) N = false ->
  N < fuel ->
  runScrapeSite env fuel url browser true =
    (Resolved (Some (scrapePageCells (gridCells grid N))),
     {| clicks := N;
        trace :=
          [ENewPage; EGoto url; EWaitForSelector ".AutoGrid"] ++
          repeatTurns N (fullTurn (clickDelay env)) ++
          lastTurn (browser url) (clickDelay env) N ++
          [ESleep (scrapeDelay env); EQueryAll ".AutoGrid-cell > *"] |}).
Proof.
  intros Hnav Hgrid Hbefore Hfail Hfuel.
  unfold runScrapeSite, scrapeSite, newPage, goto, waitForSelector,
    freshPage.
  unfold bind at 1 2 3 4, emit, await. cbn [clicks trace].
  rewrite Hnav, Hgrid. cbn [app].
  unfold bind at 1. unfold bind at 1. cbn [clicks trace app].
  rewrite (loadMoreLoop_run env (browser url) N fuel); cbn [clicks trace].
  - replace (fuel <=? N) with false by (symmetry; apply Nat.leb_gt; lia).
    unfold bind, sleepBeforeOperation, emit, ret.
    rewrite scrapePage_run. cbn [clicks trace Nat.add].
    rewrite scrapePageCells_map. by rewrite <- !app_assoc.
  - exact Hbefore.
  - exact Hfail.
Qed.

End ScrapeSiteRecursive.

Section PaginationClaims.

Context {Element : Type} `{extractorObj : Extractors Element}.
Variable env : gmap string string.

Local Open Scope nat_scope.

(** What the loop does, turn by turn.  Every turn sleeps the click delay,
    probes the scoped "load more" selector and, when the probe goes through,
    clicks it.  The loop ends at the first turn in which the probe or the
    click is rejected: with the first such turn being turn [N+1], the
    loop is still running after [fuel <= N] turns and has ended, by the
    caught failure and with [N] clicks made, after [N+1] turns.  Hence it
    ends within [N+1] turns whenever the probe fails after [N] clicks; and
    whenever it has ended, the last turn was one that failed. *)
Theorem loadMoreLoop_ends_at_first_failed_turn
    (site : Site Element) (s : PageState) :
  (forall N,
      (forall k, k < N -> stepSucceeds site (clicks s + k) = true) ->
      stepSucceeds site (clicks s + N) = false ->
      forall fuel,
        loadMoreLoop env fuel site true s =
          if fuel <=? N
          then (OutOfFuel,
                {| clicks := clicks s + fuel;
                   trace := trace s ++
                            repeatTurns fuel (fullTurn (clickDelay env)) |})
          else (Resolved tt,
                {| clicks := clicks s + N;
                   trace := trace s ++
                            repeatTurns N (fullTurn (clickDelay env)) ++
                            lastTurn site (clickDelay env) (clicks s + N) |})) /\
  (forall N,
      fulfilled (loadMoreProbe site (clicks s + N)) = false ->
      exists M,
        M <= N /\
        loadMoreLoop env (S N) site true s =
          (Resolved tt,
           {| clicks := clicks s + M;
              trace := trace s ++
                       repeatTurns M (fullTurn (clickDelay env)) ++
                       lastTurn site (clickDelay env) (clicks s + M) |})) /\
  (forall fuel s',
      loadMoreLoop env fuel site true s = (Resolved tt, s') ->
      stepSucceeds site (clicks s') = false).
Proof.
  split; [|split].
  - intros N Hbefore Hfail fuel. by apply loadMoreLoop_run.
  - intros N Hprobe.
    destruct (first_failing_turn site (clicks s) N) as (M & HM & Hbefore & Hfail).
    { unfold stepSucceeds. by rewrite Hprobe. }
    exists M. split; [exact HM|].
    rewrite (loadMoreLoop_run env site M (S N) s Hbefore Hfail).
    by replace (S N <=? M) with false by (symmetry; apply Nat.leb_gt; lia).
  - intros fuel s'. apply loadMoreLoop_stopped.
Qed.

End PaginationClaims.

(** Two more pages, then no control: three turns, two clicks. *)
Lemma loadMoreLoop_ends_at_first_failed_turn_two_pages :
  loadMoreLoop ∅ 3 Sample.twoMorePages true freshPage =
    (Resolved tt,
     {| clicks := 2;
        trace := [ESleep 500; EEval loadMoreSelector; EClick loadMoreSelector;
                  ESleep 500; EEval loadMoreSelector; EClick loadMoreSelector;
                  ESleep 500; EEval loadMoreSelector] |}) /\
  (exists M,
      (M <= 2)%nat /\
      loadMoreLoop ∅ 3 Sample.twoMorePages true freshPage =
        (Resolved tt,
         {| clicks := M;
            trace := repeatTurns M (fullTurn 500) ++
                     lastTurn Sample.twoMorePages 500 M |})) /\
  stepSucceeds Sample.twoMorePages 2 = false.
Proof.
  destruct (loadMoreLoop_ends_at_first_failed_turn ∅ Sample.twoMorePages
              freshPage) as (Hrun & Hbound & Hstopped).
  assert (Hloop :
    loadMoreLoop ∅ 3 Sample.twoMorePages true freshPage =
      (Resolved tt,
       {| clicks := 2;
          trace := [ESleep 500; EEval loadMoreSelector; EClick loadMoreSelector;
                    ESleep 500; EEval loadMoreSelector; EClick loadMoreSelector;
                    ESleep 500; EEval loadMoreSelector] |})).
  { rewrite (Hrun 2%nat).
    - reflexivity.
    - intros [|[|k]] Hk; [reflexivity | reflexivity | lia].
    - reflexivity. }
  split; [exact Hloop|]. split.
  - destruct (Hbound 2%nat) as (M & HM & HloopM); [reflexivity|].
    exists M. split; [exact HM | exact HloopM].
  - exact (Hstopped 3%nat _ Hloop).
Defined.

(** C5.  On a page whose "load more" control is found by every probe but
    cannot be clicked, the loop ends after its first turn, whatever the
    number of turns allowed: the rejected click is caught by the same
    [catch] as a failed probe and clears the flag, although the control is
    still there and no probe has failed. *)
Theorem loadMoreLoop_failed_click_ends_loop :
  (forall n, loadMoreProbe Sample.clickFails n = Fulfilled tt) /\
  (forall n, loadMoreClick Sample.clickFails n = Threw ClickError) /\
  forall fuel,
    loadMoreLoop ∅ (S fuel) Sample.clickFails true freshPage =
      (Resolved tt,
       {| clicks := 0;
          trace := [ESleep 500; EEval loadMoreSelector;
                    EClick loadMoreSelector] |}).
Proof.
  split; [reflexivity|]. split; [reflexivity|].
  intros fuel. by rewrite loadMoreLoop_turn.
Qed.

(** ** The page-miss *)

Section PageMiss.

Context {Element : Type} `{extractorObj : Extractors Element}.
Variable env : gmap string string.

(** The [null] branch: taken when the wait fulfils with [null]. *)
Lemma scrapeSite_null_on_null_handle (fuel : nat) (url : string)
    (browser : Browser Element) (scrapeRecursively : bool) :
  navigation (browser url) = Fulfilled tt ->
  autoGrid (browser url) = Fulfilled None ->
  fst (runScrapeSite env fuel url browser scrapeRecursively) = Resolved None.
Proof.
  intros Hnav Hgrid.
  unfold runScrapeSite, scrapeSite, newPage, goto, waitForSelector, bind,
    emit, await, ret, freshPage; simpl.
  by rewrite Hnav, Hgrid.
Qed.

(** A rejected wait is not caught: it rejects the call. *)
Lemma scrapeSite_rejects_on_rejected_wait (fuel : nat) (url : string)
    (browser : Browser Element) (scrapeRecursively : bool) (e : Error) :
  navigation (browser url) = Fulfilled tt ->
  autoGrid (browser url) = Threw e ->
  fst (runScrapeSite env fuel url browser scrapeRecursively) = Rejected e.
Proof.
  intros Hnav Hgrid.
  unfold runScrapeSite, scrapeSite, newPage, goto, waitForSelector, bind,
    emit, await, ret, freshPage; simpl.
  by rewrite Hnav, Hgrid.
Qed.

(** Under Puppeteer's contract the wait never fulfils with [null]. *)
Lemma puppeteerWaitForSelector_not_null (timeout : Z) (appearsAt : option Z)
    (handle : ElementHandle Element) :
  puppeteerWaitForSelector timeout appearsAt handle <> Fulfilled None.
Proof.
  unfold puppeteerWaitForSelector.
  destruct appearsAt as [t|]; [destruct (t <=? timeout)%Z|]; discriminate.
Qed.

(** When the element never appears, or appears too late, the wait rejects
    and so does [scrapeSite]. *)
Lemma scrapeSite_rejects_on_page_miss (fuel : nat) (url : string)
    (browser : Browser Element) (scrapeRecursively : bool)
    (timeout : Z) (appearsAt : option Z) (handle : ElementHandle Element) :
  navigation (browser url) = Fulfilled tt ->
  autoGrid (browser url) =
    puppeteerWaitForSelector timeout appearsAt handle ->
  match appearsAt with Some t => (timeout < t)%Z | None => True end ->
  fst (runScrapeSite env fuel url browser scrapeRecursively) =
    Rejected TimeoutError.
Proof.
  intros Hnav Hgrid Hlate.
  apply scrapeSite_rejects_on_rejected_wait; [exact Hnav|].
  rewrite Hgrid. unfold puppeteerWaitForSelector.
  destruct appearsAt as [t|]; [|reflexivity].
  destruct (Z.leb_spec t timeout); [lia | reflexivity].
Qed.

End PageMiss.

(** C4.  On a page whose product grid never appears, [scrapeSite] does not
    return [null]: the wait for [.AutoGrid] rejects with a [TimeoutError],
    nothing catches it, and the call rejects, with or without pagination.
    A grid that is present and empty yields the empty sequence. *)
Theorem scrapeSite_page_miss_rejects
    (env : gmap string string) (fuel : nat) (url : string)
    (scrapeRecursively : bool) :
  fst (runScrapeSite env fuel url (fun _ => Sample.gridNeverAppears)
         scrapeRecursively) = Rejected TimeoutError /\
  fst (runScrapeSite env fuel url (fun _ => Sample.gridNeverAppears)
         scrapeRecursively) <> Resolved None /\
  fst (runScrapeSite env fuel url (fun _ => Sample.gridIsEmpty) false) =
    Resolved (Some []).
Proof.
  assert (Hrejects :
    fst (runScrapeSite env fuel url (fun _ => Sample.gridNeverAppears)
           scrapeRecursively) = Rejected TimeoutError).
  { by apply (scrapeSite_rejects_on_page_miss env fuel url _ _
                defaultTimeout None Sample.emptyGrid). }
  split; [exact Hrejects|]. split; [by rewrite Hrejects|].
  by rewrite scrapeSite_first_page.
Qed.

(** ** Delays from the environment *)

Section ParseInt.

(** Evaluates the value of a digit character in the goal. *)
Ltac digit_value :=
  match goal with
  | |- context [Z.of_N (N_of_ascii ?c) - 48] =>
      let v := eval vm_compute in (Z.of_N (N_of_ascii c) - 48) in
      change (Z.of_N (N_of_ascii c) - 48) with v
  end.

Lemma parseDigits_digit (R : Z) (c : ascii) (s : string) (acc : option Z)
    (d : Z) :
  digitValue R c = Some d ->
  parseDigits R (String c s) acc =
    parseDigits R s (Some (match acc with Some a => a * R + d | None => d end)).
Proof. intros Hd. simpl. by rewrite Hd. Qed.

Lemma parseDigits_decimal_acc (d : Decimal.uint) (p : positive) :
  parseDigits 10 (NilEmpty.string_of_uint d) (Some (Z.pos p)) =
    Some (Z.pos (Pos.of_uint_acc d p)).
Proof.
  revert p. induction d; intros p; [reflexivity|..];
    cbn [NilEmpty.string_of_uint Pos.of_uint_acc];
    (erewrite parseDigits_digit by reflexivity);
    rewrite <- IHd; do 2 f_equal; digit_value; lia.
Qed.

Lemma parseDigits_decimal_zero (d : Decimal.uint) :
  parseDigits 10 (NilEmpty.string_of_uint d) (Some 0) =
    Some (Z.of_N (Pos.of_uint d)).
Proof.
  induction d; [reflexivity|..];
    cbn [NilEmpty.string_of_uint Pos.of_uint];
    (erewrite parseDigits_digit by reflexivity);
    [exact IHd | apply parseDigits_decimal_acc ..].
Qed.

Lemma parseDigits_decimal (d : Decimal.uint) :
  d <> Decimal.Nil ->
  parseDigits 10 (NilEmpty.string_of_uint d) None =
    Some (Z.of_N (Pos.of_uint d)).
Proof.
  destruct d; [done|..]; intros _;
    cbn [NilEmpty.string_of_uint Pos.of_uint];
    (erewrite parseDigits_digit by reflexivity);
    [apply parseDigits_decimal_zero | apply parseDigits_decimal_acc ..].
Qed.

End ParseInt.

Section ParseIntDecimal.

Lemma trimStart_nonspace (c : ascii) (s : string) :
  isWhiteSpace c = false -> trimStart (String c s) = String c s.
Proof. intros Hc. simpl. by rewrite Hc. Qed.

Lemma parseIntString_unsigned (d : Decimal.uint) :
  d <> Decimal.Nil ->
  parseIntString (NilEmpty.string_of_uint d) = Num (Z.of_N (Pos.of_uint d)).
Proof.
  intros Hd. pose proof (parseDigits_decimal d Hd) as Hparse.
  destruct d as [|d|d|d|d|d|d|d|d|d|d]; [done|..];
    destruct d; unfold parseIntString;
    cbn [NilEmpty.string_of_uint] in Hparse |- *;
    (rewrite trimStart_nonspace by reflexivity);
    cbv beta iota zeta; rewrite Hparse; f_equal; lia.
Qed.

Lemma parseIntString_negative (d : Decimal.uint) :
  d <> Decimal.Nil ->
  parseIntString (String "-" (NilEmpty.string_of_uint d)) =
    Num (- Z.of_N (Pos.of_uint d)).
Proof.
  intros Hd. pose proof (parseDigits_decimal d Hd) as Hparse.
  destruct d as [|d|d|d|d|d|d|d|d|d|d]; [done|..];
    destruct d; unfold parseIntString;
    cbn [NilEmpty.string_of_uint] in Hparse |- *;
    (rewrite trimStart_nonspace by reflexivity);
    cbv beta iota zeta; rewrite Hparse; f_equal; lia.
Qed.

(** [parseInt] reads back the decimal numeral of every integer. *)
Lemma parseIntString_decimalString (z : Z) :
  parseIntString (decimalString z) = Num z.
Proof.
  unfold decimalString. destruct z as [|p|p]; [reflexivity|..];
    cbn [Z.to_int NilZero.string_of_int];
    pose proof (Unsigned.to_uint_nonnil p) as Hnonnil;
    unfold NilZero.string_of_uint;
    destruct (Pos.to_uint p) eqn:Hdigits; try done;
    rewrite <- Hdigits in *.
  all: first [rewrite parseIntString_unsigned by done
             | rewrite parseIntString_negative by done];
    by rewrite Unsigned.of_to.
Qed.

End ParseIntDecimal.

Section DelayFacts.

Context {Element : Type} `{extractorObj : Extractors Element}.

(** A call with [scrapeRecursively = true], in terms of its loop. *)
Lemma scrapeSite_recursive (env : gmap string string) (fuel : nat)
    (url : string) (browser : Browser Element) :
  runScrapeSite env fuel url browser true =
    match navigation (browser url) with
    | Threw e =>
        (Rejected e, {| clicks := 0; trace := [ENewPage; EGoto url] |})
    | Fulfilled _ =>
        match autoGrid (browser url) with
        | Threw e =>
            (Rejected e,
             {| clicks := 0;
                trace := [ENewPage; EGoto url; EWaitForSelector ".AutoGrid"] |})
        | Fulfilled None =>
            (Resolved None,
             {| clicks := 0;
                trace := [ENewPage; EGoto url; EWaitForSelector ".AutoGrid"] |})
        | Fulfilled (Some grid) =>
            match
              loadMoreLoop env fuel (browser url) true
                {| clicks := 0;
                   trace := [ENewPage; EGoto url;
                             EWaitForSelector ".AutoGrid"] |}
            with
            | (Resolved _, s) =>
                (Resolved (Some (List.map scrapeProduct
                                   (gridCells grid (clicks s)))),
                 {| clicks := clicks s;
                    trace := trace s ++
                             [ESleep (scrapeDelay env);
                              EQueryAll ".AutoGrid-cell > *"] |})
            | (Rejected e, s) => (Rejected e, s)
            | (OutOfFuel, s) => (OutOfFuel, s)
            end
        end
    end.
Proof.
  unfold runScrapeSite, scrapeSite, newPage, goto, waitForSelector,
    freshPage.
  unfold bind at 1 2 3 4, emit, await. cbn [clicks trace].
  destruct (navigation (browser url)); [|reflexivity].
  destruct (autoGrid (browser url)) as [[grid|]|]; try reflexivity.
  cbn [app]. unfold bind at 1. unfold bind at 1. cbn [clicks trace app].
  destruct (loadMoreLoop env fuel (browser url) true _) as [[[]| |] s];
    try reflexivity.
  unfold bind, sleepBeforeOperation, emit, ret.
  rewrite scrapePage_run. cbn [clicks trace].
  by rewrite <- !app_assoc.
Qed.

End DelayFacts.

Section DelayValues.

(** Where the delays come out as the comments in [scrapeSite] say.  A
    variable that is unset, or whose value (of ASCII characters) [parseInt]
    reads as [NaN], gives the default, 500 ms for the click delay and
    3000 ms for the settle delay; the decimal numeral of a non-zero integer
    that a JavaScript number holds exactly gives that integer. *)
Lemma delays_from_environment (env : gmap string string) :
  (env !! "CLICK_DELAY" = None -> clickDelay env = 500) /\
  (env !! "SCRAPE_DELAY" = None -> scrapeDelay env = 3000) /\
  (forall s,
      asciiOnly s = true -> parseIntString s = NaN ->
      (env !! "CLICK_DELAY" = Some s -> clickDelay env = 500) /\
      (env !! "SCRAPE_DELAY" = Some s -> scrapeDelay env = 3000)) /\
  (forall z,
      z <> 0 -> safeInteger z ->
      (env !! "CLICK_DELAY" = Some (decimalString z) -> clickDelay env = z) /\
      (env !! "SCRAPE_DELAY" = Some (decimalString z) -> scrapeDelay env = z)).
Proof.
  unfold clickDelay, scrapeDelay, parseInt, processEnv.
  split; [by intros ->|]. split; [by intros ->|]. split.
  - intros s _ Hs. split; intros ->; simpl; by rewrite Hs.
  - intros z Hz _. split; intros ->; simpl;
      rewrite parseIntString_decimalString; simpl;
      by destruct (Z.eqb_spec z 0).
Qed.

End DelayValues.

(** A click delay of 250 ms from the environment, the settle delay left to
    its default; and a value that is no number. *)
Lemma delays_from_environment_sample :
  clickDelay {["CLICK_DELAY" := "250"]} = 250 /\
  scrapeDelay {["CLICK_DELAY" := "250"]} = 3000 /\
  clickDelay {["CLICK_DELAY" := "soon"]} = 500.
Proof.
  destruct (delays_from_environment {["CLICK_DELAY" := "250"]})
    as (_ & Hunset & _ & Hdecimal).
  destruct (delays_from_environment {["CLICK_DELAY" := "soon"]})
    as (_ & _ & Hnan & _).
  split; [|split].
  - apply (Hdecimal 250); [lia | unfold safeInteger; lia | reflexivity].
  - apply Hunset. reflexivity.
  - apply (Hnan "soon"); reflexivity.
Defined.

(** C8.  With [CLICK_DELAY=0] and [SCRAPE_DELAY=0] in the environment,
    [parseInt] reads the integer 0 from both, and yet the delays are the
    defaults: [0 || 500] is 500 and [0 || 3000] is 3000.  A paginated call
    on a single page then sleeps 500 ms before its probe and 3000 ms before
    the extraction, not 0 ms. *)
Theorem zero_delay_falls_back_to_default :
  let env : gmap string string :=
    <["CLICK_DELAY" := "0"]> (<["SCRAPE_DELAY" := "0"]> ∅) in
  parseInt (processEnv env "CLICK_DELAY") = Num 0 /\
  parseInt (processEnv env "SCRAPE_DELAY") = Num 0 /\
  clickDelay env = 500 /\
  scrapeDelay env = 3000 /\
  trace (snd (runScrapeSite env 1 "https://www.fredmeyer.com/pl/cheese/02002"
                (fun _ => MoreSamples.singlePage) true)) =
    [ENewPage; EGoto "https://www.fredmeyer.com/pl/cheese/02002";
     EWaitForSelector ".AutoGrid";
     ESleep 500; EEval loadMoreSelector;
     ESleep 3000; EQueryAll ".AutoGrid-cell > *"].
Proof. repeat split; vm_compute; reflexivity. Qed.

(** ** The reconciler *)

Import Reconciler.

Section ReconcilerFacts.

Implicit Types (c : list CatalogEntry) (r : IProductInfo) (st : State).

Lemma hasKey_true key e :
  hasKey key e = true <-> identityKey (entryProduct e) = key.
Proof. unfold hasKey. apply bool_decide_eq_true. Qed.

Lemma hasKey_false key e :
  hasKey key e = false <-> identityKey (entryProduct e) <> key.
Proof. unfold hasKey. apply bool_decide_eq_false. Qed.

Lemma findEntry_key key c e :
  findEntry key c = Some e -> In e c /\ identityKey (entryProduct e) = key.
Proof.
  intros Hfind. apply find_some in Hfind as [Hin Hkey].
  split; [exact Hin | by apply hasKey_true].
Qed.

Lemma updateFields_same_key old r :
  identityKey old = identityKey r -> updateFields old r = r.
Proof.
  destruct old, r. unfold identityKey, updateFields. simpl.
  by intros [= -> ->].
Qed.

Lemma findEntry_updateEntry r c e :
  findEntry (identityKey r) c = Some e ->
  findEntry (identityKey r) (updateEntry r c) =
    Some {| entryId := entryId e; entryProduct := r |}.
Proof.
  unfold findEntry. induction c as [|e0 c IH]; simpl; [done|].
  destruct (hasKey (identityKey r) e0) eqn:Hkey.
  - intros [= <-]. simpl.
    apply hasKey_true in Hkey.
    rewrite (updateFields_same_key _ _ Hkey).
    replace (hasKey (identityKey r) {| entryId := entryId e0; entryProduct := r |})
      with true by (symmetry; by apply hasKey_true).
    reflexivity.
  - intros Hfind. simpl. rewrite Hkey. by apply IH.
Qed.

Lemma findEntry_updateEntry_other key r c :
  key <> identityKey r ->
  findEntry key (updateEntry r c) = findEntry key c.
Proof.
  intros Hne. unfold findEntry. induction c as [|e0 c IH]; simpl; [done|].
  destruct (hasKey (identityKey r) e0) eqn:Hkey; simpl.
  - apply hasKey_true in Hkey.
    replace (hasKey key e0) with false
      by (symmetry; apply hasKey_false; congruence).
    replace (hasKey key _) with false; [done|].
    symmetry. apply hasKey_false. simpl.
    rewrite (updateFields_same_key _ _ Hkey). congruence.
  - by rewrite IH.
Qed.

Lemma findEntry_insertEntry key r c :
  findEntry key (insertEntry r c) =
    match findEntry key c with
    | Some e => Some e
    | None =>
        if bool_decide (identityKey r = key)
        then Some {| entryId := nextId c; entryProduct := r |}
        else None
    end.
Proof.
  unfold findEntry, insertEntry. generalize (nextId c) as id.
  induction c as [|e0 c IH]; intros id; simpl.
  - unfold hasKey. simpl. by destruct (bool_decide _).
  - destruct (hasKey key e0); [done | apply IH].
Qed.

Lemma updateEntry_In r c e :
  In e (updateEntry r c) ->
  In e c \/
  exists e0,
    In e0 c /\ hasKey (identityKey r) e0 = true /\
    e = {| entryId := entryId e0;
           entryProduct := updateFields (entryProduct e0) r |}.
Proof.
  induction c as [|e0 c IH]; simpl; [tauto|].
  destruct (hasKey (identityKey r) e0) eqn:Hkey; simpl.
  - intros [<-|Hin]; [|tauto]. right. exists e0. tauto.
  - intros [<-|Hin]; [tauto|].
    destruct (IH Hin) as [?|(e1 & ? & ? & ?)]; [tauto|].
    right. exists e1. tauto.
Qed.

(** *** One candidate *)

Lemma reconcile_rejects st r :
  validate r = false ->
  reconcile st r =
    {| catalog := catalog st; writes := writes st;
       rejected := rejected st ++ [r] |}.
Proof. intros Hr. unfold reconcile. by rewrite Hr. Qed.

Lemma reconcile_stores st r :
  validate r = true -> stored (catalog (reconcile st r)) r.
Proof.
  intros Hr. unfold reconcile, stored. rewrite Hr.
  destruct (findEntry (identityKey r) (catalog st)) as [e|] eqn:Hfind.
  - case_bool_decide as Hsame.
    + by exists e.
    + simpl. eexists. split; [by apply findEntry_updateEntry|done].
  - simpl. rewrite findEntry_insertEntry, Hfind.
    rewrite bool_decide_eq_true_2 by done. by eexists.
Qed.

Lemma reconcile_stored_noop st r :
  validate r = true -> stored (catalog st) r -> reconcile st r = st.
Proof.
  intros Hr (e & Hfind & He). unfold reconcile. rewrite Hr, Hfind.
  by rewrite bool_decide_eq_true_2.
Qed.

Lemma reconcile_other_key st r key :
  key <> identityKey r ->
  findEntry key (catalog (reconcile st r)) = findEntry key (catalog st).
Proof.
  intros Hne. unfold reconcile.
  destruct (validate r); [|done].
  destruct (findEntry (identityKey r) (catalog st)) as [e|] eqn:Hfind.
  - case_bool_decide; [done|]. simpl.
    by apply findEntry_updateEntry_other.
  - simpl. rewrite findEntry_insertEntry.
    destruct (findEntry key (catalog st)); [done|].
    by rewrite bool_decide_eq_false_2.
Qed.

Lemma reconcile_keeps_stored st r r' :
  stored (catalog st) r ->
  (validate r' = true -> identityKey r' = identityKey r -> r' = r) ->
  stored (catalog (reconcile st r')) r.
Proof.
  intros Hstored Hsame.
  destruct (validate r') eqn:Hr'; [|by rewrite reconcile_rejects].
  destruct (decide (identityKey r' = identityKey r)) as [Hkey|Hkey].
  - assert (r' = r) as -> by auto. by rewrite reconcile_stored_noop.
  - unfold stored. rewrite reconcile_other_key by done. exact Hstored.
Qed.

Lemma reconcile_wellFormed st r :
  wellFormed (catalog st) -> wellFormed (catalog (reconcile st r)).
Proof.
  unfold wellFormed. rewrite !List.Forall_forall. intros Hok.
  unfold reconcile. destruct (validate r) eqn:Hr; [|done].
  destruct (findEntry (identityKey r) (catalog st)) as [e|] eqn:Hfind.
  - case_bool_decide; [done|]. simpl. intros e' Hin.
    apply updateEntry_In in Hin as [Hin|(e0 & Hin & Hkey & ->)];
      [by apply Hok|].
    simpl. apply hasKey_true in Hkey.
    by rewrite (updateFields_same_key _ _ Hkey).
  - simpl. unfold insertEntry. intros e' [Hin|[<-|[]]]%in_app_or;
      [by apply Hok | done].
Qed.

End ReconcilerFacts.

Section ReconcilerRuns.

Implicit Types (c : list CatalogEntry) (r : IProductInfo) (st : State).
Implicit Types (candidates : list IProductInfo).

Lemma stored_holds c r : stored c r -> holds c r.
Proof.
  intros (e & Hfind & He). exists e.
  split; [by apply findEntry_key in Hfind as [? _] | exact He].
Qed.

Lemma wellFormed_holds c r : wellFormed c -> holds c r -> validate r = true.
Proof.
  unfold wellFormed. rewrite List.Forall_forall.
  intros Hok (e & Hin & <-). by apply Hok.
Qed.

Lemma reconcileAll_app candidates1 candidates2 st :
  reconcileAll (candidates1 ++ candidates2) st =
    reconcileAll candidates2 (reconcileAll candidates1 st).
Proof. unfold reconcileAll. apply fold_left_app. Qed.

Lemma reconcileAll_wellFormed candidates st :
  wellFormed (catalog st) -> wellFormed (catalog (reconcileAll candidates st)).
Proof.
  revert st. induction candidates as [|r l IH]; intros st Hok; [done|].
  simpl. apply IH. by apply reconcile_wellFormed.
Qed.

Lemma reconcile_rejected st r :
  rejected (reconcile st r) =
    (rejected st ++ (if validate r then [] else [r]))%list.
Proof.
  unfold reconcile. destruct (validate r); [|done].
  destruct (findEntry _ _); [case_bool_decide|]; simpl;
    by rewrite app_nil_r.
Qed.

Lemma reconcileAll_rejected candidates st :
  rejected (reconcileAll candidates st) =
    (rejected st ++ List.filter (fun r => negb (validate r)) candidates)%list.
Proof.
  revert st. induction candidates as [|r l IH]; intros st; simpl.
  - by rewrite app_nil_r.
  - unfold reconcileAll in IH. rewrite IH, reconcile_rejected.
    destruct (validate r); simpl; by rewrite <- app_assoc.
Qed.

Lemma reconcileAll_keeps_stored candidates st r :
  stored (catalog st) r ->
  (forall r', In r' candidates -> validate r' = true ->
              identityKey r' = identityKey r -> r' = r) ->
  stored (catalog (reconcileAll candidates st)) r.
Proof.
  revert st. induction candidates as [|r0 l IH]; intros st Hstored Hsame;
    [done|].
  simpl. apply IH.
  - apply reconcile_keeps_stored; [exact Hstored|].
    apply Hsame. by left.
  - intros r' Hin. apply Hsame. by right.
Qed.

(** After a run over consistent candidates, every valid candidate is
    found under its identity key. *)
Lemma reconcileAll_stores candidates st r :
  consistent candidates ->
  In r candidates -> validate r = true ->
  stored (catalog (reconcileAll candidates st)) r.
Proof.
  revert st. induction candidates as [|r0 l IH]; intros st Hcons Hin Hr;
    [done|].
  simpl. destruct (decide (r0 = r)) as [->|Hne].
  - apply reconcileAll_keeps_stored; [by apply reconcile_stores|].
    intros r' Hin' Hr' Hkey.
    apply Hcons; [by right | by left | done..].
  - destruct Hin as [?|Hin]; [done|]. apply IH; [|done..].
    intros r1 r2 H1 H2. apply Hcons; by right.
Qed.

(** A run over candidates that are all stored already changes nothing in
    the catalog and issues no write. *)
Lemma reconcileAll_noop candidates st :
  (forall r, In r candidates -> validate r = true -> stored (catalog st) r) ->
  catalog (reconcileAll candidates st) = catalog st /\
  writes (reconcileAll candidates st) = writes st.
Proof.
  revert st. induction candidates as [|r0 l IH]; intros st Hstored; [done|].
  simpl. destruct (validate r0) eqn:Hr0.
  - rewrite reconcile_stored_noop; [|done|apply Hstored; [by left|done]].
    apply IH. intros r Hin. apply Hstored. by right.
  - rewrite reconcile_rejects by done.
    destruct (IH {| catalog := catalog st; writes := writes st;
                    rejected := rejected st ++ [r0] |}) as [Hc Hw]; [|done].
    intros r Hin. apply Hstored. by right.
Qed.

Lemma flattenBatch_In (b : ScrapeBatch) r :
  In r (flattenBatch b) <->
  exists key products, b !! key = Some (Some products) /\ In r products.
Proof.
  unfold flattenBatch. rewrite in_concat. split.
  - intros (products & Hproducts & Hr).
    apply list_elem_of_In, list_elem_of_omap in Hproducts
      as ([key entry] & Hentry & Hsome).
    apply elem_of_map_to_list in Hentry. simpl in Hsome. subst entry.
    by exists key, products.
  - intros (key & products & Hkey & Hr). exists products.
    split; [|exact Hr].
    apply list_elem_of_In, list_elem_of_omap. exists (key, Some products).
    split; [by apply elem_of_map_to_list | done].
Qed.

End ReconcilerRuns.

Section ReconcilerClaims.

(** C1.  Take a catalog whose entries all pass the gate and any record [r]
    of any non-null category of the batch.  Right after the reconciler has
    treated [r], the catalog holds [r] if and only if all five fields of
    [r] are defined and non-empty.  A record that fails the gate leaves
    catalog and writes as they were and is logged as rejected; the run
    goes on with the records that follow [r]; at the end of the run [r] is
    in the log of rejected records exactly when it fails the gate, and the
    catalog still has no entry that fails it. *)
Theorem processScrapeResults_gate (b : ScrapeBatch) (c : list CatalogEntry)
    (key : string) (products : list IProductInfo) (r : IProductInfo) :
  wellFormed c ->
  b !! key = Some (Some products) ->
  In r products ->
  exists pre post,
    flattenBatch b = (pre ++ r :: post)%list /\
    let before := reconcileAll pre (start c) in
    let after := reconcile before r in
    (holds (catalog after) r <-> validate r = true) /\
    (validate r = false ->
     catalog after = catalog before /\
     writes after = writes before /\
     rejected after = (rejected before ++ [r])%list) /\
    processScrapeResults b c = reconcileAll post after /\
    (In r (rejected (processScrapeResults b c)) <-> validate r = false) /\
    wellFormed (catalog (processScrapeResults b c)).
Proof.
  intros Hok Hkey Hr.
  assert (Hin : In r (flattenBatch b))
    by (apply flattenBatch_In; eauto).
  destruct (in_split _ _ Hin) as (pre & post & Hsplit).
  exists pre, post. split; [exact Hsplit|]. simpl.
  assert (Hbefore : wellFormed (catalog (reconcileAll pre (start c))))
    by by apply reconcileAll_wellFormed.
  split; [|split; [|split; [|split]]].
  - split.
    + apply wellFormed_holds. by apply reconcile_wellFormed.
    + intros Hvalid. by apply stored_holds, reconcile_stores.
  - intros Hinvalid. by rewrite reconcile_rejects.
  - unfold processScrapeResults. by rewrite Hsplit, reconcileAll_app.
  - unfold processScrapeResults. rewrite reconcileAll_rejected. simpl.
    rewrite filter_In, negb_true_iff. tauto.
  - by apply reconcileAll_wellFormed.
Qed.

(** A second run of the modelled reconciler.  When no two valid records of
    the batch share an identity key and differ in price, link or image, a
    second run with the same batch, against the catalog that the first run
    left, issues no write and leaves the catalog as it is: the lookup by
    identity key finds, for every valid record, the entry of the first run
    with all fields identical. *)
Theorem processScrapeResults_second_run (b : ScrapeBatch)
    (c : list CatalogEntry) :
  consistent (flattenBatch b) ->
  let first := processScrapeResults b c in
  let second := processScrapeResults b (catalog first) in
  writes second = [] /\
  catalog second = catalog first /\
  forall r, In r (flattenBatch b) -> validate r = true ->
            stored (catalog first) r.
Proof.
  intros Hcons. simpl.
  assert (Hstored : forall r, In r (flattenBatch b) -> validate r = true ->
                              stored (catalog (processScrapeResults b c)) r).
  { intros r Hin Hr. by apply reconcileAll_stores. }
  destruct (reconcileAll_noop (flattenBatch b)
              (start (catalog (processScrapeResults b c))) Hstored)
    as [Hcatalog Hwrites].
  split; [exact Hwrites|]. split; [exact Hcatalog | exact Hstored].
Qed.

End ReconcilerClaims.

(** The incomplete record of the mixed batch is rejected, the complete one
    is inserted. *)
Lemma processScrapeResults_gate_mixed :
  In Sample.noPrice (rejected (processScrapeResults Sample.mixedBatch [])) /\
  writes (processScrapeResults Sample.mixedBatch []) =
    [Insert (Sample.beef "$4.99")].
Proof.
  destruct (processScrapeResults_gate Sample.mixedBatch [] "meat"
              [Sample.beef "$4.99"; Sample.noPrice] Sample.noPrice)
    as (pre & post & _ & _ & _ & _ & Hrejected & _).
  - constructor.
  - vm_compute. reflexivity.
  - simpl. tauto.
  - split; [by apply Hrejected | by vm_compute].
Defined.

Lemma processScrapeResults_second_run_mixed :
  writes (processScrapeResults Sample.mixedBatch
            (catalog (processScrapeResults Sample.mixedBatch []))) = [] /\
  catalog (processScrapeResults Sample.mixedBatch []) =
    [{| entryId := 1; entryProduct := Sample.beef "$4.99" |}].
Proof.
  destruct (processScrapeResults_second_run Sample.mixedBatch [])
    as (Hwrites & _ & _).
  - change (flattenBatch Sample.mixedBatch)
      with [Sample.beef "$4.99"; Sample.noPrice].
    intros r1 r2 [<-|[<-|[]]] [<-|[<-|[]]]; try reflexivity;
      vm_compute; discriminate.
  - split; [exact Hwrites | by vm_compute].
Defined.

(** In the modelled reconciler a product that the batch lists twice, at two
    prices, is updated twice on every run, the second run included. *)
Lemma second_run_writes_again :
  ~ (forall (b : ScrapeBatch) (c : list CatalogEntry),
        writes (processScrapeResults b (catalog (processScrapeResults b c))) = []).
Proof.
  intros Hclaim. specialize (Hclaim Sample.twoPrices []).
  vm_compute in Hclaim. discriminate Hclaim.
Qed.

(** * Further properties of the scraper *)

(** ** Outcomes of [scrapeSite] *)

Section ScrapeSiteOutcomes.

Context {Element : Type} `{extractorObj : Extractors Element}.
Variable env : gmap string string.

Lemma loadMoreLoop_never_rejects (site : Site Element) (fuel : nat)
    (flag : bool) (s : PageState) (e : Error) :
  fst (loadMoreLoop env fuel site flag s) <> Rejected e.
Proof.
  destruct flag; [|by rewrite loadMoreLoop_done].
  revert s. induction fuel as [|fuel IH]; intros s; [done|].
  rewrite loadMoreLoop_turn.
  destruct (stepSucceeds site (clicks s)); [apply IH | done].
Qed.

(** The loop adds nothing but sleeps, probes and clicks to the events. *)
Lemma loadMoreLoop_events (site : Site Element) (fuel : nat) (s : PageState) :
  exists events,
    trace (snd (loadMoreLoop env fuel site true s)) = (trace s ++ events)%list /\
    Forall (fun ev => isPaginationEvent ev = true) events.
Proof.
  revert s. induction fuel as [|fuel IH]; intros s.
  - exists []. split; [by rewrite app_nil_r | constructor].
  - rewrite loadMoreLoop_turn.
    destruct (stepSucceeds site (clicks s)).
    + destruct (IH {| clicks := S (clicks s);
                      trace := trace s ++ fullTurn (clickDelay env) |})
        as (events & Htrace & Hevents).
      exists (fullTurn (clickDelay env) ++ events)%list. split.
      * rewrite Htrace. simpl. by rewrite <- app_assoc.
      * apply Forall_app. split; [by repeat constructor | exact Hevents].
    + exists (lastTurn site (clickDelay env) (clicks s)). split; [done|].
      unfold lastTurn. destruct (fulfilled _); by repeat constructor.
Qed.

(** X6.  Whatever the probe and the click settle to, the pagination loop
    itself never rejects: every rejection inside a turn is caught.  And all
    the loop does to the page is sleep, probe and click. *)
Theorem loadMoreLoop_swallows_failures (site : Site Element) (fuel : nat)
    (s : PageState) :
  (forall e, fst (loadMoreLoop env fuel site true s) <> Rejected e) /\
  exists events,
    trace (snd (loadMoreLoop env fuel site true s)) = (trace s ++ events)%list /\
    Forall (fun ev => isPaginationEvent ev = true) events.
Proof.
  split; [intros e; apply loadMoreLoop_never_rejects|].
  apply loadMoreLoop_events.
Qed.

(** X7.  [scrapeSite] fulfils with [null] exactly when the navigation went
    through and the wait for the grid fulfilled with [null]; once a grid
    handle is there, the call never yields [null]. *)
Theorem scrapeSite_null_only_without_handle (fuel : nat) (url : string)
    (browser : Browser Element) (scrapeRecursively : bool) :
  fst (runScrapeSite env fuel url browser scrapeRecursively) = Resolved None <->
  navigation (browser url) = Fulfilled tt /\
  autoGrid (browser url) = Fulfilled None.
Proof.
  destruct scrapeRecursively.
  - rewrite scrapeSite_recursive.
    destruct (navigation (browser url)) as [[]|e1]; simpl;
      [|split; [done | intros [? _]; done]].
    destruct (autoGrid (browser url)) as [[grid|]|e2]; simpl;
      [|done|split; [done | intros [_ ?]; done]].
    destruct (loadMoreLoop env fuel (browser url) true _) as [[[]|e3|] s'];
      simpl; split; try done; intros [_ ?]; done.
  - rewrite scrapeSite_first_page.
    destruct (navigation (browser url)) as [[]|e1]; simpl;
      [|split; [done | intros [? _]; done]].
    destruct (autoGrid (browser url)) as [[grid|]|e2]; simpl;
      [split; [done | intros [_ ?]; done] | done
      | split; [done | intros [_ ?]; done]].
Qed.

(** X8.  [scrapePage] is not entered, and so the cells of the grid are not
    queried, in a call whose navigation is rejected, in a call whose wait
    for the grid yields no handle (it is rejected or fulfils with [null]),
    and in a call that is still paginating. *)
Theorem scrapeSite_no_extraction_without_grid (fuel : nat) (url : string)
    (browser : Browser Element) (scrapeRecursively : bool) :
  navigation (browser url) <> Fulfilled tt \/
  (forall grid, autoGrid (browser url) <> Fulfilled (Some grid)) \/
  fst (runScrapeSite env fuel url browser scrapeRecursively) = OutOfFuel ->
  ~ In (EQueryAll ".AutoGrid-cell > *")
       (trace (snd (runScrapeSite env fuel url browser scrapeRecursively))).
Proof.
  intros Hwhy Hin.
  assert (Hrun : exists products,
             fst (runScrapeSite env fuel url browser scrapeRecursively) =
               Resolved (Some products)).
  { revert Hin. destruct scrapeRecursively.
    - rewrite scrapeSite_recursive.
      destruct (navigation (browser url)) as [[]|e1]; simpl;
        [|intros [?|[?|[]]]; done].
      destruct (autoGrid (browser url)) as [[grid|]|e2]; simpl;
        [|intros [?|[?|[?|[]]]]; done..].
      destruct (loadMoreLoop_events (browser url) fuel
                  {| clicks := 0;
                     trace := [ENewPage; EGoto url;
                               EWaitForSelector ".AutoGrid"] |})
        as (events & Htrace & Hevents).
      destruct (loadMoreLoop env fuel (browser url) true _) as [[[]|e3|] s'];
        simpl in *.
      + intros _. by eexists.
      + rewrite Htrace. intros [?|[?|[?|Hin]]]; try done.
        rewrite List.Forall_forall in Hevents. by apply Hevents in Hin.
      + rewrite Htrace. intros [?|[?|[?|Hin]]]; try done.
        rewrite List.Forall_forall in Hevents. by apply Hevents in Hin.
    - rewrite scrapeSite_first_page.
      destruct (navigation (browser url)) as [[]|e1]; simpl;
        [|intros [?|[?|[]]]; done].
      destruct (autoGrid (browser url)) as [[grid|]|e2]; simpl.
      + intros _. by eexists.
      + intros [?|[?|[?|[]]]]; done.
      + intros [?|[?|[?|[]]]]; done. }
  destruct Hrun as [products Hrun].
  destruct Hwhy as [Hnav|[Hgrid|Hfuel]]; [| |congruence].
  - revert Hrun. destruct scrapeRecursively;
      [rewrite scrapeSite_recursive | rewrite scrapeSite_first_page];
      by destruct (navigation (browser url)) as [[]|e1].
  - revert Hrun. destruct scrapeRecursively;
      [rewrite scrapeSite_recursive | rewrite scrapeSite_first_page];
      (destruct (navigation (browser url)) as [[]|e1]; [|done]);
      (destruct (autoGrid (browser url)) as [[grid|]|e2]; [|done..]);
      by destruct (Hgrid grid).
Qed.

End ScrapeSiteOutcomes.

(** ** Pagination: cost, growth and the loop that never ends *)

Section PaginationFurther.

Context {Element : Type} `{extractorObj : Extractors Element}.
Variable env : gmap string string.

Lemma sleepTime_app (events1 events2 : list Event) :
  sleepTime (events1 ++ events2) = sleepTime events1 + sleepTime events2.
Proof.
  induction events1 as [|ev events1 IH]; simpl; [done|].
  destruct ev; lia.
Qed.

Lemma sleepTime_repeatTurns (n : nat) (delay : Z) :
  sleepTime (repeatTurns n (fullTurn delay)) = Z.of_nat n * delay.
Proof.
  induction n as [|n IH]; [done|].
  cbn [repeatTurns]. rewrite sleepTime_app, IH. simpl. lia.
Qed.

Lemma sleepTime_lastTurn (site : Site Element) (delay : Z) (n : nat) :
  sleepTime (lastTurn site delay n) = delay.
Proof. unfold lastTurn. destruct (fulfilled _); simpl; lia. Qed.

(** X2.  A paginated call whose first failing turn is turn [N+1] sleeps
    [N+1] click delays and one settle delay in all. *)
Theorem scrapeSite_sleep_time (fuel N : nat) (url : string)
    (browser : Browser Element) (grid : ElementHandle Element) :
  navigation (browser url) = Fulfilled tt ->
  autoGrid (browser url) = Fulfilled (Some grid) ->
  (forall k, (k < N)%nat -> stepSucceeds (browser url) k = true) ->
  stepSucceeds (browser url) N = false ->
  (N < fuel)%nat ->
  sleepTime (trace (snd (runScrapeSite env fuel url browser true))) =
    (Z.of_nat N + 1) * clickDelay env + scrapeDelay env.
Proof.
  intros Hnav Hgrid Hbefore Hfail Hfuel.
  rewrite scrapeSite_recursive, Hnav, Hgrid.
  rewrite (loadMoreLoop_run env (browser url) N fuel); [|done..].
  replace (fuel <=? N)%nat with false by (symmetry; apply Nat.leb_gt; lia).
  cbn [snd fst clicks trace].
  rewrite !sleepTime_app, sleepTime_repeatTurns, sleepTime_lastTurn.
  simpl. lia.
Qed.

(** X3.  On a page whose "load more" control is always found and always
    clickable the loop does not end, and so a paginated call never settles,
    whatever the number of turns allowed. *)
Theorem scrapeSite_endless_pagination (fuel : nat) (url : string)
    (browser : Browser Element) (grid : ElementHandle Element) :
  navigation (browser url) = Fulfilled tt ->
  autoGrid (browser url) = Fulfilled (Some grid) ->
  (forall n, stepSucceeds (browser url) n = true) ->
  fst (runScrapeSite env fuel url browser true) = OutOfFuel /\
  clicks (snd (runScrapeSite env fuel url browser true)) = fuel.
Proof.
  intros Hnav Hgrid Halways.
  rewrite scrapeSite_recursive, Hnav, Hgrid.
  assert (Hloop : forall s,
            fst (loadMoreLoop env fuel (browser url) true s) = OutOfFuel /\
            clicks (snd (loadMoreLoop env fuel (browser url) true s)) =
              (clicks s + fuel)%nat).
  { induction fuel as [|n IH]; intros s.
    - simpl. split; [done | lia].
    - rewrite loadMoreLoop_turn, Halways.
      destruct (IH {| clicks := S (clicks s);
                      trace := trace s ++ fullTurn (clickDelay env) |})
        as [Hout Hclicks].
      split; [exact Hout|]. rewrite Hclicks. simpl. lia. }
  destruct (Hloop {| clicks := 0;
                     trace := [ENewPage; EGoto url;
                               EWaitForSelector ".AutoGrid"] |})
    as [Hout Hclicks].
  destruct (loadMoreLoop env fuel (browser url) true _) as [[[]|e|] s'];
    simpl in *; done.
Qed.

(** X5.  When the grid after [N] clicks still begins with the cells of the
    first page, the products of a paginated call begin with the products of
    a first-page call. *)
Theorem scrapeSite_first_page_is_prefix (fuel N : nat) (url : string)
    (browser : Browser Element) (grid : ElementHandle Element) :
  navigation (browser url) = Fulfilled tt ->
  autoGrid (browser url) = Fulfilled (Some grid) ->
  (forall k, (k < N)%nat -> stepSucceeds (browser url) k = true) ->
  stepSucceeds (browser url) N = false ->
  (N < fuel)%nat ->
  gridCells grid 0 `prefix_of` gridCells grid N ->
  exists firstPage allPages,
    fst (runScrapeSite env fuel url browser false) = Resolved (Some firstPage) /\
    fst (runScrapeSite env fuel url browser true) = Resolved (Some allPages) /\
    firstPage `prefix_of` allPages.
Proof.
  intros Hnav Hgrid Hbefore Hfail Hfuel [more Hmore].
  rewrite scrapeSite_recursive, scrapeSite_first_page, Hnav, Hgrid.
  rewrite (loadMoreLoop_run env (browser url) N fuel); [|done..].
  replace (fuel <=? N)%nat with false by (symmetry; apply Nat.leb_gt; lia).
  eexists _, _. split; [reflexivity|]. split; [reflexivity|].
  cbn [clicks Nat.add]. rewrite Hmore, map_app.
  by eexists.
Qed.

End PaginationFurther.

(** ** Prices *)

Section Prices.

Context {Element : Type} `{extractorObj : Extractors Element}.

Lemma pricePerPoundRegex_dollar (s : string) :
  regexTest pricePerPoundRegex s = true -> exists rest, s = String "$" rest.
Proof.
  rewrite regexTest_Matches. unfold pricePerPoundRegex. intros Hm.
  inversion Hm as [| |? ? d rest Hd Hrest| | | |]; subst.
  apply Matches_Lit in Hd as ->. by eexists.
Qed.

Lemma extractPrice_dollar (product : Element) :
  exists rest, extractPrice product = JStr (String "$" rest).
Proof.
  unfold extractPrice.
  destruct (regexTest pricePerPoundRegex _) eqn:Htest; simpl.
  - destruct (extractTextContent product _) as [|text]; [done|].
    cbn [ToString] in Htest.
    apply pricePerPoundRegex_dollar in Htest as [rest ->]. by eexists.
  - unfold strPlus. by eexists.
Qed.

(** X9.  The price of every record that [scrapePage] emits is a string that
    starts with a dollar sign; it is never undefined and never empty, not
    even for a cell in which neither price element is found. *)
Theorem scrapePage_price_dollar (grid : ElementHandle Element) (s : PageState) :
  exists records s',
    scrapePage grid s = (Resolved records, s') /\
    Forall (fun r => exists rest, productPrice r = JStr (String "$" rest))
      records.
Proof.
  eexists _, _. split; [apply scrapePage_run|].
  induction (gridCells grid (clicks s)) as [|cell cells IH]; simpl;
    constructor; [apply extractPrice_dollar | exact IH].
Qed.

End Prices.

(** ** The further properties on the sample pages *)

Lemma scrapeSite_all_pages_two_more :
  runScrapeSite ∅ 3 "https://www.fredmeyer.com/pl/cheese/02002"
      (fun _ => Sample.twoMorePages) true =
    (Resolved (Some [scrapeProduct Sample.groundBeef;
                     scrapeProduct Sample.bananas;
                     scrapeProduct Sample.blank]),
     {| clicks := 2;
        trace :=
          [ENewPage; EGoto "https://www.fredmeyer.com/pl/cheese/02002";
           EWaitForSelector ".AutoGrid";
           ESleep 500; EEval loadMoreSelector; EClick loadMoreSelector;
           ESleep 500; EEval loadMoreSelector; EClick loadMoreSelector;
           ESleep 500; EEval loadMoreSelector;
           ESleep 3000; EQueryAll ".AutoGrid-cell > *"] |}).
Proof.
  rewrite (scrapeSite_all_pages ∅ 3 2 _ (fun _ => Sample.twoMorePages)
             Sample.growingGrid).
  - reflexivity.
  - reflexivity.
  - reflexivity.
  - intros [|[|k]] Hk; [reflexivity | reflexivity | lia].
  - reflexivity.
  - lia.
Defined.

Lemma scrapeSite_sleep_time_two_more :
  sleepTime (trace (snd (runScrapeSite {["CLICK_DELAY" := "250"]} 3
                           "https://www.fredmeyer.com/pl/cheese/02002"
                           (fun _ => Sample.twoMorePages) true))) = 3750.
Proof.
  rewrite (scrapeSite_sleep_time {["CLICK_DELAY" := "250"]} 3 2 _
             (fun _ => Sample.twoMorePages) Sample.growingGrid).
  - reflexivity.
  - reflexivity.
  - reflexivity.
  - intros [|[|k]] Hk; [reflexivity | reflexivity | lia].
  - reflexivity.
  - lia.
Defined.

Lemma scrapeSite_endless_pagination_sample :
  fst (runScrapeSite ∅ 1000 "https://www.fredmeyer.com/pl/cheese/02002"
         (fun _ => MoreSamples.endlessPages) true) = OutOfFuel.
Proof.
  apply (scrapeSite_endless_pagination ∅ 1000 _
           (fun _ => MoreSamples.endlessPages) Sample.growingGrid);
    reflexivity.
Defined.

Lemma scrapeSite_first_page_is_prefix_two_more :
  exists firstPage allPages,
    fst (runScrapeSite ∅ 3 "https://www.fredmeyer.com/pl/cheese/02002"
           (fun _ => Sample.twoMorePages) false) = Resolved (Some firstPage) /\
    fst (runScrapeSite ∅ 3 "https://www.fredmeyer.com/pl/cheese/02002"
           (fun _ => Sample.twoMorePages) true) = Resolved (Some allPages) /\
    firstPage `prefix_of` allPages.
Proof.
  apply (scrapeSite_first_page_is_prefix ∅ 3 2 _
           (fun _ => Sample.twoMorePages) Sample.growingGrid).
  - reflexivity.
  - reflexivity.
  - intros [|[|k]] Hk; [reflexivity | reflexivity | lia].
  - reflexivity.
  - lia.
  - by exists [Sample.bananas; Sample.blank].
Defined.

Lemma scrapeSite_null_only_without_handle_sample :
  autoGrid Sample.twoMorePages <> Fulfilled None /\
  fst (runScrapeSite ∅ 3 "https://www.fredmeyer.com/pl/cheese/02002"
         (fun _ => Sample.twoMorePages) true) <> Resolved None.
Proof.
  split; [discriminate|]. intros Hnull.
  apply (scrapeSite_null_only_without_handle ∅ 3 _
           (fun _ => Sample.twoMorePages) true) in Hnull as [_ Hgrid].
  discriminate Hgrid.
Defined.

Lemma scrapeSite_no_extraction_without_grid_unreachable :
  ~ In (EQueryAll ".AutoGrid-cell > *")
       (trace (snd (runScrapeSite ∅ 3 "https://www.fredmeyer.com/pl/cheese/02002"
                      (fun _ => MoreSamples.unreachable) true))).
Proof.
  apply (scrapeSite_no_extraction_without_grid ∅ 3 _
           (fun _ => MoreSamples.unreachable) true).
  left. discriminate.
Defined.

Lemma pricePerPoundRegex_spec_sample :
  regexTest pricePerPoundRegex "$12.49/lb" = true /\
  regexTest pricePerPoundRegex "$/lb" = false.
Proof.
  split.
  - apply pricePerPoundRegex_spec. exists "12.49".
    split; [discriminate|]. split; reflexivity.
  - reflexivity.
Defined.

(** * The routes of the [App] class *)

Section AppRoutes.

Import App.

Lemma sameText_trans (a b c : string) :
  sameText a c = true -> sameText b c = true -> sameText a b = true.
Proof.
  unfold sameText. rewrite !String.eqb_eq. congruence.
Qed.

Lemma matchSegments_overlap (pattern1 pattern2 : list Segment)
    (segments : list string) (params1 params2 : Params) :
  matchSegments pattern1 segments = Some params1 ->
  matchSegments pattern2 segments = Some params2 ->
  overlap pattern1 pattern2 = true.
Proof.
  revert pattern2 segments params1 params2.
  induction pattern1 as [|[text1|name1] pattern1 IH];
    intros [|[text2|name2] pattern2] [|segment segments] params1 params2;
    simpl; try done.
  - destruct (sameText text1 segment) eqn:H1; [|done].
    destruct (sameText text2 segment) eqn:H2; [|done].
    intros Hm1 Hm2. rewrite (sameText_trans _ _ _ H1 H2). simpl. eauto.
  - destruct (sameText text1 segment); [|done].
    destruct (String.eqb segment ""); [done|].
    destruct (matchSegments pattern2 segments) eqn:Hm2; [|done]. eauto.
  - destruct (String.eqb segment ""); [done|].
    destruct (matchSegments pattern1 segments) eqn:Hm1; [|done].
    destruct (sameText text2 segment); [|done]. eauto.
  - destruct (String.eqb segment ""); [done|].
    destruct (matchSegments pattern1 segments) eqn:Hm1; [|done].
    destruct (matchSegments pattern2 segments) eqn:Hm2; [|done]. eauto.
Qed.

Lemma routeMatch_overlap (route1 route2 : Route) (method : Method)
    (path : string) (params1 params2 : Params) :
  routeMatch route1 method path = Some params1 ->
  routeMatch route2 method path = Some params2 ->
  takesMethod (routeMethod route1) method = true /\
  takesMethod (routeMethod route2) method = true /\
  overlap (routeSegments (routePath route1))
          (routeSegments (routePath route2)) = true.
Proof.
  unfold routeMatch.
  destruct (takesMethod (routeMethod route1) method); [|done].
  destruct (takesMethod (routeMethod route2) method); [|done].
  destruct (pathSegments path) as [segments|]; [|done].
  intros H1 H2. split; [done|]. split; [done|].
  by eapply matchSegments_overlap.
Qed.

Lemma dispatchIn_first (table : list Route) (method : Method) (path : string)
    (call : ModelCall) :
  dispatchIn table method path = Some call ->
  exists i route params,
    table !! i = Some route /\
    routeMatch route method path = Some params /\
    call = routeHandler route params.
Proof.
  induction table as [|route table IH]; simpl; [done|].
  destruct (routeMatch route method path) as [params|] eqn:Hmatch.
  - intros [= <-]. by exists 0%nat, route, params.
  - intros Hrest. destruct (IH Hrest) as (i & r & params & Hi & Hm & Hc).
    by exists (S i), r, params.
Qed.

Lemma dispatchIn_none (table : list Route) (method : Method) (path : string) :
  dispatchIn table method path = None ->
  forall route, In route table -> routeMatch route method path = None.
Proof.
  induction table as [|route table IH]; simpl; [done|].
  destruct (routeMatch route method path) as [params|] eqn:Hmatch; [done|].
  intros Hrest r [<-|Hin]; [done | by apply IH].
Qed.

(** X14.  No request whose path is free of percent signs (so that Express
    has nothing to decode in it) is taken by two routes of the table; hence
    such a request runs the handler of a route exactly when that route takes
    it, whatever the order in which the routes are registered. *)
Theorem routes_unambiguous (method : Method) (path : string) :
  noPercent path = true ->
  (forall i j route1 route2 params1 params2,
      routes !! i = Some route1 -> routes !! j = Some route2 ->
      routeMatch route1 method path = Some params1 ->
      routeMatch route2 method path = Some params2 ->
      i = j) /\
  (forall call,
      dispatch method path = Some call <->
      exists route params,
        In route routes /\
        routeMatch route method path = Some params /\
        call = routeHandler route params).
Proof.
  intros _.
  assert (Hunique : forall i j route1 route2 params1 params2,
             routes !! i = Some route1 -> routes !! j = Some route2 ->
             routeMatch route1 method path = Some params1 ->
             routeMatch route2 method path = Some params2 ->
             i = j).
  { intros i j route1 route2 params1 params2 Hi Hj H1 H2.
    destruct (routeMatch_overlap _ _ _ _ _ _ H1 H2) as (Hm1 & Hm2 & Hover).
    destruct i as [|[|[|[|[|[|i]]]]]]; try done;
      destruct j as [|[|[|[|[|[|j]]]]]]; try done;
      injection Hi as <-; injection Hj as <-;
      try reflexivity;
      first [ by vm_compute in Hover
            | by destruct method; vm_compute in Hm1, Hm2 ]. }
  split; [exact Hunique|].
  intros call. split.
  - intros Hdispatch.
    destruct (dispatchIn_first _ _ _ _ Hdispatch)
      as (i & route & params & Hi & Hmatch & ->).
    exists route, params. split; [|done].
    apply list_elem_of_In. by eapply list_elem_of_lookup_2.
  - intros (route & params & Hin & Hmatch & ->).
    unfold dispatch.
    destruct (dispatchIn routes method path) as [call|] eqn:Hdispatch.
    + destruct (dispatchIn_first _ _ _ _ Hdispatch)
        as (i & route' & params' & Hi & Hmatch' & ->).
      apply list_elem_of_In, list_elem_of_lookup_1 in Hin as [j Hj].
      assert (i = j) as -> by by eapply Hunique.
      rewrite Hi in Hj. injection Hj as ->.
      rewrite Hmatch in Hmatch'. by injection Hmatch' as ->.
    + by rewrite (dispatchIn_none _ _ _ Hdispatch route Hin) in Hmatch.
Qed.

End AppRoutes.

Section AppRequests.

Import App.

Lemma append_String_assoc (a : string) (c : ascii) (b : string) :
  (a ++ String c "") ++ b = a ++ String c b.
Proof.
  induction a as [|x a IH]; [reflexivity|].
  change (String x a ++ String c "") with (String x (a ++ String c "")).
  change (String x (a ++ String c "") ++ b)
    with (String x ((a ++ String c "") ++ b)).
  change (String x a ++ String c b) with (String x (a ++ String c b)).
  by rewrite IH.
Qed.

Lemma splitSlash_noSlash (s current : string) :
  noSlash s = true -> splitSlash s current = [current ++ s].
Proof.
  revert current. induction s as [|c s IH]; intros current; simpl.
  - intros _. f_equal. induction current as [|x current IHc]; [done|].
    change (String x current ++ "") with (String x (current ++ "")).
    by rewrite <- IHc.
  - intros [Hc Hs]%andb_true_iff.
    apply negb_true_iff in Hc. rewrite Hc, IH by done.
    by rewrite append_String_assoc.
Qed.

(** Evaluates what the goal says of the route table alone. *)
Ltac evaluate_routes :=
  repeat match goal with
    | |- context [routeSegments ?p] =>
        let v := eval vm_compute in (routeSegments p) in
        change (routeSegments p) with v
    | |- context [takesMethod ?a ?b] =>
        let v := eval vm_compute in (takesMethod a b) in
        change (takesMethod a b) with v
    | |- context [sameText ?a ?b] =>
        let v := eval vm_compute in (sameText a b) in
        change (sameText a b) with v
    end.

Lemma eqb_empty_false (s : string) : s <> "" -> String.eqb s "" = false.
Proof. intros Hs. by apply String.eqb_neq. Qed.

(** X15.  A [GET] of [/api/product/<id>] asks the product model for the
    product with that id, and a [DELETE] of
    [/api/customer/delete-one-product-from-sfl/<id>] asks the customer model
    to delete it, for every id that is not empty and has no slash and no
    percent sign in it. *)
Theorem dispatch_productID (id : string) :
  id <> "" -> noSlash id = true -> noPercent id = true ->
  dispatch GET ("/api/product/" ++ id) = Some (retrieveProductByID (JStr id)) /\
  dispatch DELETE ("/api/customer/delete-one-product-from-sfl/" ++ id) =
    Some (deleteOneProductFromSFL (JStr id)).
Proof.
  intros Hid Hslash _.
  assert (Hget : pathSegments ("/api/product/" ++ id) =
                   Some ["api"; "product"; id]).
  { cbv [String.append]. unfold pathSegments. cbn [splitSlash Ascii.eqb Bool.eqb].
    rewrite splitSlash_noSlash by done.
    change ("" ++ id) with id. cbn [dropTrailingSlash].
    by rewrite eqb_empty_false. }
  assert (Hdelete :
            pathSegments ("/api/customer/delete-one-product-from-sfl/" ++ id) =
              Some ["api"; "customer"; "delete-one-product-from-sfl"; id]).
  { cbv [String.append]. unfold pathSegments. cbn [splitSlash Ascii.eqb Bool.eqb].
    rewrite splitSlash_noSlash by done.
    change ("" ++ id) with id. cbn [dropTrailingSlash].
    by rewrite eqb_empty_false. }
  unfold dispatch, routes, dispatchIn, routeMatch.
  cbn [routeMethod routePath routeHandler].
  rewrite Hget, Hdelete.
  split; evaluate_routes; cbn [matchSegments]; evaluate_routes;
    cbv beta iota; rewrite eqb_empty_false by done; reflexivity.
Qed.

End AppRequests.

Section AppMethods.

Import App.

(** X16.  The method of a request bounds what it can do: the calls that read
    (all products, one product, the saved comparisons) are reached by [GET]
    and [HEAD] requests only, the call that saves by [POST] only, the calls
    that delete by [DELETE] only; no [PUT], [PATCH] or [OPTIONS] request
    reaches any call. *)
Theorem dispatch_method (method : Method) (path : string) (call : ModelCall) :
  dispatch method path = Some call ->
  match call with
  | retrieveAllProducts | retrieveSaveForLater | retrieveProductByID _ =>
      method = GET \/ method = HEAD
  | saveComparisonForLater => method = POST
  | deleteAllProductsFromSFL | deleteOneProductFromSFL _ => method = DELETE
  end.
Proof.
  intros Hdispatch.
  destruct (dispatchIn_first _ _ _ _ Hdispatch)
    as (i & route & params & Hi & Hmatch & ->).
  unfold routeMatch in Hmatch.
  destruct (takesMethod (routeMethod route) method) eqn:Htakes; [|done].
  clear Hmatch Hdispatch.
  destruct i as [|[|[|[|[|[|i]]]]]]; try done;
    injection Hi as <-; simpl;
    destruct method; vm_compute in Htakes; try done; tauto.
Qed.

End AppMethods.

Lemma routes_unambiguous_sample :
  App.dispatch App.HEAD "/API/Products/" = Some App.retrieveAllProducts.
Proof.
  destruct (routes_unambiguous App.HEAD "/API/Products/" eq_refl)
    as [_ Hdispatch].
  apply Hdispatch.
  exists {| App.routeMethod := App.GET; App.routePath := "/api/products";
            App.routeHandler := fun _ => App.retrieveAllProducts |}, [].
  split; [simpl; tauto|]. split; reflexivity.
Defined.

Lemma dispatch_productID_sample :
  App.dispatch App.GET "/api/product/6650f0c2a1" =
    Some (App.retrieveProductByID (JStr "6650f0c2a1")).
Proof.
  apply (dispatch_productID "6650f0c2a1"); [discriminate | reflexivity..].
Defined.

Lemma dispatch_method_sample :
  App.dispatch App.POST "/api/customer/save-for-later" =
    Some App.saveComparisonForLater /\
  App.POST = App.POST.
Proof.
  split; [reflexivity|].
  exact (dispatch_method App.POST "/api/customer/save-for-later"
           App.saveComparisonForLater eq_refl).
Defined.

(** * Delay values with blanks and units *)

(** Evaluates the value of a digit character in the goal. *)
Ltac digit_value :=
  match goal with
  | |- context [Z.of_N (N_of_ascii ?c) - 48] =>
      let v := eval vm_compute in (Z.of_N (N_of_ascii c) - 48) in
      change (Z.of_N (N_of_ascii c) - 48) with v
  end.

Section ParseIntTolerant.

Lemma trimStart_whitespace (blanks s : string) :
  stringForall isWhiteSpace blanks = true ->
  trimStart (blanks ++ s) = trimStart s.
Proof.
  induction blanks as [|c blanks IH]; [done|].
  change (String c blanks ++ s) with (String c (blanks ++ s)). simpl.
  intros [Hc Hblanks]%andb_true_iff. rewrite Hc. by apply IH.
Qed.

Lemma parseIntString_whitespace (blanks s : string) :
  stringForall isWhiteSpace blanks = true ->
  parseIntString (blanks ++ s) = parseIntString s.
Proof.
  intros Hblanks. unfold parseIntString.
  by rewrite trimStart_whitespace.
Qed.

Lemma parseDigits_stop (tail : string) (acc : option Z) :
  stopsDigits tail -> parseDigits 10 tail acc = acc.
Proof. destruct tail as [|c tail]; simpl; [done|]. by intros ->. Qed.

Lemma parseDigits_decimal_acc_tail (d : Decimal.uint) (p : positive)
    (tail : string) :
  stopsDigits tail ->
  parseDigits 10 (NilEmpty.string_of_uint d ++ tail) (Some (Z.pos p)) =
    Some (Z.pos (Pos.of_uint_acc d p)).
Proof.
  intros Htail. revert p.
  induction d; intros p;
    cbn [NilEmpty.string_of_uint Pos.of_uint_acc];
    [by apply parseDigits_stop|..];
    match goal with
    | |- context [String ?c ?s ++ tail] =>
        change (String c s ++ tail) with (String c (s ++ tail))
    end;
    (erewrite parseDigits_digit by reflexivity);
    rewrite <- IHd; do 2 f_equal; digit_value; lia.
Qed.

Lemma nzhead_no_leading_zero (d : Decimal.uint) :
  match nzhead d with D0 _ => False | _ => True end.
Proof. induction d; simpl; auto. Qed.

Lemma to_uint_leading_digit (p : positive) :
  match Pos.to_uint p with Nil | D0 _ => False | _ => True end.
Proof.
  pose proof (Unsigned.to_of (Pos.to_uint p)) as Hnorm.
  rewrite Unsigned.of_to in Hnorm. simpl in Hnorm.
  pose proof (Unsigned.to_uint_nonnil p) as Hnonnil.
  pose proof (nzhead_no_leading_zero (Pos.to_uint p)) as Hhead.
  unfold unorm in Hnorm.
  destruct (nzhead (Pos.to_uint p)) eqn:Hnz; rewrite Hnorm in *; try done.
  by apply (Unsigned.to_uint_nonzero p).
Qed.

End ParseIntTolerant.

Section DelayTolerant.

Lemma parseIntString_leading_decimal (d : Decimal.uint) (tail : string) :
  match d with Nil | D0 _ => False | _ => True end ->
  stopsDigits tail ->
  parseIntString (NilEmpty.string_of_uint d ++ tail) =
    Num (Z.of_N (Pos.of_uint d)) /\
  parseIntString (String "-" (NilEmpty.string_of_uint d ++ tail)) =
    Num (- Z.of_N (Pos.of_uint d)).
Proof.
  intros Hlead Htail.
  destruct d; try done;
    cbn [NilEmpty.string_of_uint Pos.of_uint];
    match goal with
    | |- context [String ?c ?s ++ tail] =>
        change (String c s ++ tail) with (String c (s ++ tail))
    end;
    unfold parseIntString;
    rewrite !trimStart_nonspace by reflexivity;
    cbv beta iota zeta;
    (erewrite !parseDigits_digit by reflexivity);
    repeat digit_value;
    rewrite !parseDigits_decimal_acc_tail by done;
    split; f_equal; lia.
Qed.

Lemma string_of_uint_nonnil (d : Decimal.uint) :
  d <> Nil -> NilZero.string_of_uint d = NilEmpty.string_of_uint d.
Proof. by destruct d. Qed.

Lemma parseIntString_decimalString_tail (z : Z) (tail : string) :
  z <> 0 -> stopsDigits tail ->
  parseIntString (decimalString z ++ tail) = Num z.
Proof.
  intros Hz Htail. unfold decimalString.
  destruct z as [|p|p]; [done|..];
    cbn [Z.to_int NilZero.string_of_int];
    destruct (parseIntString_leading_decimal (Pos.to_uint p) tail
                (to_uint_leading_digit p) Htail) as [Hpos Hneg];
    rewrite string_of_uint_nonnil by apply Unsigned.to_uint_nonnil.
  - by rewrite Hpos, Unsigned.of_to.
  - change (String "-" (NilEmpty.string_of_uint (Pos.to_uint p)) ++ tail)
      with (String "-" (NilEmpty.string_of_uint (Pos.to_uint p) ++ tail)).
    by rewrite Hneg, Unsigned.of_to.
Qed.

(** X12.  A delay variable is read by its leading integer: blanks before the
    numeral of a non-zero integer and anything after it that does not begin
    with a digit (a unit, a fraction) are ignored, so [" 250ms"] is 250 ms
    and ["1.5"] is 1 ms. *)
Theorem delay_with_blanks_and_unit (env : gmap string string) (z : Z)
    (blanks tail : string) :
  z <> 0 -> safeInteger z ->
  stringForall isWhiteSpace blanks = true ->
  stopsDigits tail ->
  (env !! "CLICK_DELAY" = Some (blanks ++ decimalString z ++ tail) ->
   clickDelay env = z) /\
  (env !! "SCRAPE_DELAY" = Some (blanks ++ decimalString z ++ tail) ->
   scrapeDelay env = z).
Proof.
  intros Hz _ Hblanks Htail.
  unfold clickDelay, scrapeDelay, parseInt, processEnv.
  split; intros ->; cbn [ToString];
    rewrite parseIntString_whitespace by done;
    rewrite parseIntString_decimalString_tail by done;
    simpl; by destruct (Z.eqb_spec z 0).
Qed.

End DelayTolerant.

Lemma delay_with_blanks_and_unit_sample :
  clickDelay {["CLICK_DELAY" := " 250ms"]} = 250 /\
  scrapeDelay {["SCRAPE_DELAY" := "1.5"]} = 1.
Proof.
  split.
  - apply (delay_with_blanks_and_unit {["CLICK_DELAY" := " 250ms"]}
             250 " " "ms");
      [lia | unfold safeInteger; lia | reflexivity | reflexivity | reflexivity].
  - apply (delay_with_blanks_and_unit {["SCRAPE_DELAY" := "1.5"]}
             1 "" ".5");
      [lia | unfold safeInteger; lia | reflexivity | reflexivity | reflexivity].
Defined.
